(** * SynapseTrader front end: the conversation component and its gateway

    A shallow embedding of

    - [frontend/src/types/conversation.ts], the data model;
    - [frontend/src/services/api.ts], the gateway (module [ApiService_v1]);
    - the revision of the same [ApiService] class that posts clips to
      [/api/audio-chat] and adds transcription, history clearing, health
      and status calls (module [ApiService_v2]);
    - [frontend/src/components/EnhancedConversation.tsx], the handlers;
    - [frontend/src/components/AnimatedAudioRecorder.tsx], the Send control.

    An [async] handler is a tree of effects ([Prog]); the tree is cut at
    every [await fetch(...)], where the handler is parked in the world's
    [pending] list until the environment settles the request. *)

From Stdlib Require Import String Ascii List Bool ZArith Lia.
Import ListNotations.
Local Open Scope list_scope.
Local Open Scope string_scope.

Set Implicit Arguments.

(* ===================================================================== *)
(** ** JavaScript strings: truthiness and [String.prototype.trim]         *)
(* ===================================================================== *)

(** The text a user types and the text of a reply are JavaScript
    strings: sequences of UTF-16 code units. *)
Definition jsstring := list N.

(** A literal of the source as a JavaScript string. *)
Definition js (s : string) : jsstring :=
  map N_of_ascii (list_ascii_of_string s).
Arguments js : simpl never.

(** The white space and the line terminators of ECMAScript, which
    [trim] strips: TAB, LF, VT, FF, CR, SP, NBSP, U+1680, U+2000 to
    U+200A, U+2028, U+2029, U+202F, U+205F, U+3000 and U+FEFF. *)
Definition isWhiteSpace (c : N) : bool :=
  (N.eqb c 9 || N.eqb c 10 || N.eqb c 11 || N.eqb c 12 || N.eqb c 13
   || N.eqb c 32 || N.eqb c 160 || N.eqb c 5760
   || (N.leb 8192 c && N.leb c 8202)
   || N.eqb c 8232 || N.eqb c 8233 || N.eqb c 8239 || N.eqb c 8287
   || N.eqb c 12288 || N.eqb c 65279)%bool.

Fixpoint trimStart (s : jsstring) : jsstring :=
  match s with
  | [] => []
  | c :: s' => if isWhiteSpace c then trimStart s' else s
  end.

Fixpoint trimEnd (s : jsstring) : jsstring :=
  match s with
  | [] => []
  | c :: s' =>
      match trimEnd s' with
      | [] => if isWhiteSpace c then [] else [c]
      | t => c :: t
      end
  end.

Definition trim (s : jsstring) : jsstring := trimEnd (trimStart s).

(** [!!s] for a string: only the empty string is falsy. *)
Definition truthy (s : string) : bool :=
  match s with EmptyString => false | String _ _ => true end.

Definition truthy_text (s : jsstring) : bool :=
  match s with [] => false | _ :: _ => true end.

(** Every code unit of [s] is white space (the empty string included). *)
Fixpoint all_whitespace (s : jsstring) : bool :=
  match s with
  | [] => true
  | c :: s' => isWhiteSpace c && all_whitespace s'
  end.

(* ===================================================================== *)
(** ** types/conversation.ts                                              *)
(* ===================================================================== *)

Definition Date := nat.

Inductive Blob : Type := mkBlob (bytes : list nat) (type : string).

Inductive Role : Type := user | assistant.

Record Message : Type := mkMessage {
  role : Role;
  content : jsstring;
  timestamp : option Date
}.

Record ConversationState : Type := mkConversationState {
  messages : list Message;
  isLoading : bool;
  error : option string
}.

Record ChatResponse : Type := mkChatResponse {
  text : jsstring;
  audio_url : option string
}.

(* ===================================================================== *)
(** ** Thrown values and the Fetch API                                    *)
(* ===================================================================== *)

(** What a [catch] clause can receive: an [Error] instance with its
    message, or some other value. *)
Inductive Thrown : Type :=
| Error (message : string)
| NotAnError.

Definition instanceof_Error (e : Thrown) : bool :=
  match e with Error _ => true | NotAnError => false end.

Inductive BodyInit : Type :=
| JSON_stringify (object : list (string * jsstring))
| FormData (entries : list (string * Blob * string)).

Record RequestInit : Type := mkRequestInit {
  method : option string;
  headers : option (list (string * string));
  body : option BodyInit
}.

Definition no_options : RequestInit := mkRequestInit None None None.

(** A response as the service reads it: the status line, the result of
    [response.text()], of [response.json()] (which rejects on a body that
    does not parse) and of [response.blob()]. *)
Record Response (B : Type) : Type := mkResponse {
  status : Z;
  statusText : string;
  body_text : string;
  body_json : Thrown + B;
  body_blob : Blob
}.

(** [response.ok]: the status is in the range 200-299. *)
Definition ok {B} (r : Response B) : bool :=
  (200 <=? status r)%Z && (status r <=? 299)%Z.

Inductive FetchOutcome (B : Type) : Type :=
| Rejected (e : Thrown)
| Responded (r : Response B).
Arguments Rejected {B} e.

Record HTMLAudioElement : Type := mkAudio {
  src : string;
  played : list string
}.

(* ===================================================================== *)
(** ** Effect trees                                                       *)
(* ===================================================================== *)

(** [Prog B T]: an asynchronous computation returning a [T]; [B] is the
    type of the decoded response bodies it receives. *)
Inductive Prog (B T : Type) : Type :=
| Return (v : T)
| Throw (e : Thrown)
| Fetch (url : string) (init : RequestInit) (k : FetchOutcome B -> Prog B T)
| SetConversation (f : ConversationState -> ConversationState) (k : Prog B T)
| SetIsConversationActive (b : bool) (k : Prog B T)
| NewDate (k : Date -> Prog B T)
| SetTimeout (ms : nat) (k : Prog B T)
| AudioPlayerRef_current (k : bool -> Prog B T)
| Audio_set_src (u : string) (k : Prog B T)
| Audio_play (k : Prog B T).

Arguments Return {B T} v.
Arguments Throw {B T} e.
Arguments Fetch {B T} url init k.
Arguments SetConversation {B T} f k.
Arguments SetIsConversationActive {B T} b k.
Arguments NewDate {B T} k.
Arguments SetTimeout {B T} ms k.
Arguments AudioPlayerRef_current {B T} k.
Arguments Audio_set_src {B T} u k.
Arguments Audio_play {B T} k.

Fixpoint bind {B T U} (p : Prog B T) (f : T -> Prog B U) : Prog B U :=
  match p with
  | Return v => f v
  | Throw e => Throw e
  | Fetch url init k => Fetch url init (fun o => bind (k o) f)
  | SetConversation g k => SetConversation g (bind k f)
  | SetIsConversationActive b k => SetIsConversationActive b (bind k f)
  | NewDate k => NewDate (fun d => bind (k d) f)
  | SetTimeout ms k => SetTimeout ms (bind k f)
  | AudioPlayerRef_current k => AudioPlayerRef_current (fun c => bind (k c) f)
  | Audio_set_src u k => Audio_set_src u (bind k f)
  | Audio_play k => Audio_play (bind k f)
  end.

(** [try { p } catch (e) { h e }] *)
Fixpoint try_catch {B T} (p : Prog B T) (h : Thrown -> Prog B T) : Prog B T :=
  match p with
  | Return v => Return v
  | Throw e => h e
  | Fetch url init k => Fetch url init (fun o => try_catch (k o) h)
  | SetConversation g k => SetConversation g (try_catch k h)
  | SetIsConversationActive b k => SetIsConversationActive b (try_catch k h)
  | NewDate k => NewDate (fun d => try_catch (k d) h)
  | SetTimeout ms k => SetTimeout ms (try_catch k h)
  | AudioPlayerRef_current k => AudioPlayerRef_current (fun c => try_catch (k c) h)
  | Audio_set_src u k => Audio_set_src u (try_catch k h)
  | Audio_play k => Audio_play (try_catch k h)
  end.

Declare Scope prog_scope.
Delimit Scope prog_scope with prog.
Notation "x <- p ;; q" := (bind p (fun x => q))
  (at level 61, p at next level, right associativity) : prog_scope.
Notation "p ;; q" := (bind p (fun _ => q))
  (at level 61, right associativity) : prog_scope.
Local Open Scope prog_scope.

Definition setConversation {B} f : Prog B unit := SetConversation f (Return tt).
Definition setIsConversationActive {B} b : Prog B unit :=
  SetIsConversationActive b (Return tt).
Definition new_Date {B} : Prog B Date := NewDate (fun d => Return d).
(** [await new Promise(resolve => setTimeout(resolve, ms))] *)
Definition sleep {B} (ms : nat) : Prog B unit := SetTimeout ms (Return tt).
Definition audioPlayerRef_current {B} : Prog B bool :=
  AudioPlayerRef_current (fun c => Return c).
Definition audio_set_src {B} u : Prog B unit := Audio_set_src u (Return tt).
Definition audio_play {B} : Prog B unit := Audio_play (Return tt).
Definition fetch {B} url init : Prog B (Response B) :=
  Fetch url init (fun o =>
    match o with
    | Rejected e => Throw e
    | Responded r => Return r
    end).

(** [await response.json()] *)
Definition response_json {B} (r : Response B) : Prog B B :=
  match body_json r with
  | inl e => Throw e
  | inr v => Return v
  end.

(** The program has settled: it returned or threw. *)
Definition settled {B T} (p : Prog B T) : bool :=
  match p with
  | Return _ | Throw _ => true
  | _ => false
  end.

(** The first thing the program does is issue a request. *)
Definition first_request {B T} (p : Prog B T) : option (string * RequestInit) :=
  match p with
  | Fetch url init _ => Some (url, init)
  | _ => None
  end.

(** The program after its first request was settled with [o]. *)
Definition resume {B T} (p : Prog B T) (o : FetchOutcome B) : Prog B T :=
  match p with
  | Fetch _ _ k => k o
  | _ => p
  end.

(** What a settled program hands to its caller. *)
Definition result {B T} (p : Prog B T) : option (Thrown + T) :=
  match p with
  | Return v => Some (inr v)
  | Throw e => Some (inl e)
  | _ => None
  end.

(** One request, then a result whatever the outcome: no second request,
    no other effect. *)
Definition one_round_trip {B T} (p : Prog B T) : Prop :=
  exists url init k,
    p = Fetch url init k /\ forall o, settled (k o) = true.

(** What the caller of a one-request program gets when the request is
    settled with [o]. *)
Definition reply {B T} (p : Prog B T) (o : FetchOutcome B) : option (Thrown + T) :=
  result (resume p o).

(* ===================================================================== *)
(** ** Object spread                                                      *)
(* ===================================================================== *)

(** [{...a, ...b}] on string-keyed objects: the keys of [b] win. *)
Fixpoint has_key (key : string) (o : list (string * string)) : bool :=
  match o with
  | [] => false
  | (k, _) :: o' => String.eqb k key || has_key key o'
  end.

Definition spread_object (a b : list (string * string)) : list (string * string) :=
  (filter (fun kv => negb (has_key (fst kv) b)) a ++ b)%list.

Definition or_else {A} (a b : option A) : option A :=
  match b with Some _ => b | None => a end.

(** [{...a, ...b}] on request options. *)
Definition spread_init (a b : RequestInit) : RequestInit :=
  {| method := or_else (method a) (method b);
     headers := or_else (headers a) (headers b);
     body := or_else (body a) (body b) |}.

Definition default_headers (h : option (list (string * string)))
  : list (string * string) :=
  match h with Some l => l | None => [] end.

(** [process.env.REACT_APP_API_URL || 'http://localhost:8000'] *)
Definition base_url (REACT_APP_API_URL : option string) : string :=
  match REACT_APP_API_URL with
  | Some u => if truthy u then u else "http://localhost:8000"
  | None => "http://localhost:8000"
  end.

(* ===================================================================== *)
(** ** services/api.ts                                                    *)
(* ===================================================================== *)

Module ApiService_v1.
Section Env.
Variable REACT_APP_API_URL : option string.

Definition API_BASE_URL : string := base_url REACT_APP_API_URL.

Definition makeRequest {B} (endpoint : string) (options : RequestInit)
  : Prog B B :=
  let url := API_BASE_URL ++ endpoint in
  response <- fetch url
    (spread_init
       {| method := None;
          headers := Some (spread_object
                             [("Content-Type", "application/json")]
                             (default_headers (headers options)));
          body := None |}
       options) ;;
  if negb (ok response) then
    Throw (Error ("API request failed: " ++ statusText response))
  else response_json response.

Definition sendTextMessage (text : jsstring) : Prog ChatResponse ChatResponse :=
  makeRequest "/api/chat"
    {| method := Some "POST";
       headers := None;
       body := Some (JSON_stringify [("text", text)]) |}.

Definition sendAudioMessage (audioBlob : Blob)
  : Prog ChatResponse ChatResponse :=
  let formData := FormData [("audio", audioBlob, "recording.webm")] in
  response <- fetch (API_BASE_URL ++ "/api/speech-to-text")
    {| method := Some "POST"; headers := None; body := Some formData |} ;;
  if negb (ok response) then
    Throw (Error ("Audio processing failed: " ++ statusText response))
  else response_json response.

Definition getConversationHistory {Any} : Prog (list Any) (list Any) :=
  makeRequest "/api/conversation-history" no_options.

Definition textToSpeech {B} (text : jsstring) : Prog B Blob :=
  response <- fetch (API_BASE_URL ++ "/api/text-to-speech")
    {| method := Some "POST";
       headers := Some [("Content-Type", "application/json")];
       body := Some (JSON_stringify [("text", text)]) |} ;;
  if negb (ok response) then
    Throw (Error ("Text-to-speech failed: " ++ statusText response))
  else Return (body_blob response).
End Env.
End ApiService_v1.

(* ===================================================================== *)
(** ** services/api.ts, the revision with the combined audio endpoint     *)
(* ===================================================================== *)

Module ApiService_v2.
Section Env.
Variable REACT_APP_API_URL : option string.

Definition API_BASE_URL : string := base_url REACT_APP_API_URL.

Definition makeRequest {B} (endpoint : string) (options : RequestInit)
  : Prog B B :=
  let url := API_BASE_URL ++ endpoint in
  response <- fetch url
    (spread_init
       {| method := None;
          headers := Some (spread_object
                             [("Content-Type", "application/json")]
                             (default_headers (headers options)));
          body := None |}
       options) ;;
  if negb (ok response) then
    let errorText := body_text response in
    Throw (Error ("API request failed: " ++ statusText response
                  ++ " - " ++ errorText))
  else response_json response.

Definition sendTextMessage (text : jsstring) : Prog ChatResponse ChatResponse :=
  makeRequest "/api/chat"
    {| method := Some "POST";
       headers := None;
       body := Some (JSON_stringify [("text", text)]) |}.

Definition sendAudioMessage (audioBlob : Blob)
  : Prog ChatResponse ChatResponse :=
  let formData := FormData [("audio", audioBlob, "recording.webm")] in
  response <- fetch (API_BASE_URL ++ "/api/audio-chat")
    {| method := Some "POST"; headers := None; body := Some formData |} ;;
  if negb (ok response) then
    let errorText := body_text response in
    Throw (Error ("Audio processing failed: " ++ statusText response
                  ++ " - " ++ errorText))
  else response_json response.

Definition speechToText {B} (audioBlob : Blob) : Prog B B :=
  let formData := FormData [("audio", audioBlob, "recording.webm")] in
  response <- fetch (API_BASE_URL ++ "/api/speech-to-text")
    {| method := Some "POST"; headers := None; body := Some formData |} ;;
  if negb (ok response) then
    let errorText := body_text response in
    Throw (Error ("Speech-to-text failed: " ++ statusText response
                  ++ " - " ++ errorText))
  else response_json response.

Definition textToSpeech {B} (text : jsstring) : Prog B Blob :=
  response <- fetch (API_BASE_URL ++ "/api/text-to-speech")
    {| method := Some "POST";
       headers := Some [("Content-Type", "application/json")];
       body := Some (JSON_stringify [("text", text)]) |} ;;
  if negb (ok response) then
    let errorText := body_text response in
    Throw (Error ("Text-to-speech failed: " ++ statusText response
                  ++ " - " ++ errorText))
  else Return (body_blob response).

Definition getConversationHistory {Any} : Prog (list Any) (list Any) :=
  makeRequest "/api/conversation-history" no_options.

Definition clearConversationHistory {B} : Prog B B :=
  makeRequest "/api/conversation-history"
    {| method := Some "DELETE"; headers := None; body := None |}.

Definition getHealthStatus {Any} : Prog Any Any :=
  makeRequest "/api/health" no_options.

Definition getApiStatus {Any} : Prog Any Any :=
  makeRequest "/api/status" no_options.
End Env.
End ApiService_v2.

(** The two methods the conversation component calls, with what it relies
    on: each call is one request and one terminal result. *)
Class ApiService : Type := {
  sendTextMessage : jsstring -> Prog ChatResponse ChatResponse;
  sendAudioMessage : Blob -> Prog ChatResponse ChatResponse;
  sendTextMessage_round_trip : forall t, one_round_trip (sendTextMessage t);
  sendAudioMessage_round_trip : forall b, one_round_trip (sendAudioMessage b)
}.

(* ===================================================================== *)
(** ** The two revisions of the service as instances                      *)
(* ===================================================================== *)

Ltac round_trip :=
  intros; do 3 eexists; split; [reflexivity |];
  intros [e | r]; cbn; [reflexivity |];
  destruct (ok r); cbn; [| reflexivity];
  unfold response_json; destruct (body_json r); reflexivity.

Definition api_v1 (env : option string) : ApiService :=
  {| sendTextMessage := ApiService_v1.sendTextMessage env;
     sendAudioMessage := ApiService_v1.sendAudioMessage env;
     sendTextMessage_round_trip := ltac:(round_trip);
     sendAudioMessage_round_trip := ltac:(round_trip) |}.

Definition api_v2 (env : option string) : ApiService :=
  {| sendTextMessage := ApiService_v2.sendTextMessage env;
     sendAudioMessage := ApiService_v2.sendAudioMessage env;
     sendTextMessage_round_trip := ltac:(round_trip);
     sendAudioMessage_round_trip := ltac:(round_trip) |}.

(* ===================================================================== *)
(** ** The world the handlers run in                                      *)
(* ===================================================================== *)

(** The component's state ([useState], [useRef]), the staged clip of the
    recorder, the clock read by [new Date()], the requests issued so far
    and the handlers parked at an [await]. *)
Record World : Type := mkWorld {
  conversation : ConversationState;
  isConversationActive : bool;
  audioPlayerRef : option HTMLAudioElement;
  audioBlob : option Blob;
  clock : Date;
  network : list (string * RequestInit);
  pending : list (FetchOutcome ChatResponse -> Prog ChatResponse unit)
}.

Definition with_conversation (c : ConversationState) (w : World) : World :=
  mkWorld c (isConversationActive w) (audioPlayerRef w) (audioBlob w)
          (clock w) (network w) (pending w).

Definition with_isConversationActive (b : bool) (w : World) : World :=
  mkWorld (conversation w) b (audioPlayerRef w) (audioBlob w)
          (clock w) (network w) (pending w).

Definition with_audioPlayerRef (a : option HTMLAudioElement) (w : World) : World :=
  mkWorld (conversation w) (isConversationActive w) a (audioBlob w)
          (clock w) (network w) (pending w).

Definition with_audioBlob (b : option Blob) (w : World) : World :=
  mkWorld (conversation w) (isConversationActive w) (audioPlayerRef w) b
          (clock w) (network w) (pending w).

Definition with_clock (d : Date) (w : World) : World :=
  mkWorld (conversation w) (isConversationActive w) (audioPlayerRef w)
          (audioBlob w) d (network w) (pending w).

Definition with_pending p (w : World) : World :=
  mkWorld (conversation w) (isConversationActive w) (audioPlayerRef w)
          (audioBlob w) (clock w) (network w) p.

Definition suspend url init k (w : World) : World :=
  mkWorld (conversation w) (isConversationActive w) (audioPlayerRef w)
          (audioBlob w) (clock w)
          (network w ++ [(url, init)])%list (pending w ++ [k])%list.

(** A handler waiting for a timer is parked like one waiting for a
    response, without a request; it resumes whatever it is handed. *)
Definition park (k : Prog ChatResponse unit) (w : World) : World :=
  with_pending (pending w ++ [fun _ => k])%list w.

(** Run a handler up to its next [await] (or to its end).  State
    updaters are applied in the order they are queued; a rejection nobody
    catches changes nothing. *)
Fixpoint run (p : Prog ChatResponse unit) (w : World) : World :=
  match p with
  | Return _ => w
  | Throw _ => w
  | Fetch url init k => suspend url init k w
  | SetConversation f k => run k (with_conversation (f (conversation w)) w)
  | SetIsConversationActive b k => run k (with_isConversationActive b w)
  | NewDate k => run (k (clock w)) w
  | SetTimeout _ k => park k w
  | AudioPlayerRef_current k =>
      run (k (match audioPlayerRef w with Some _ => true | None => false end)) w
  | Audio_set_src u k =>
      run k (with_audioPlayerRef
               (option_map (fun a => mkAudio u (played a)) (audioPlayerRef w)) w)
  | Audio_play k =>
      run k (with_audioPlayerRef
               (option_map (fun a => mkAudio (src a) (played a ++ [src a])%list)
                           (audioPlayerRef w)) w)
  end.

(** [l] without its [i]-th element. *)
Definition remove_nth {A} (i : nat) (l : list A) : list A :=
  (firstn i l ++ skipn (S i) l)%list.

(** The transcript as the user reads it: who said what. *)
Definition transcript (w : World) : list (Role * jsstring) :=
  map (fun m => (role m, content m)) (messages (conversation w)).

(** The [play()] calls the audio element received, by source. *)
Definition play_calls (w : World) : list string :=
  match audioPlayerRef w with
  | Some a => played a
  | None => []
  end.

(* ===================================================================== *)
(** ** components/Conversation.tsx                                        *)
(* ===================================================================== *)

Module Conversation.

Record SimulatedResponse : Type := mkSimulatedResponse {
  text : jsstring;
  audioUrl : option string
}.

(** The double quote character. *)
Definition dquote : jsstring := [34%N].

Definition simulateApiCall {B} (text : jsstring) : Prog B SimulatedResponse :=
  sleep 1000 ;;
  Return {| text := (js "Simulated response to: " ++ dquote ++ text ++ dquote
                     ++ js ". Backend integration pending.")%list;
            audioUrl := None |}.

Definition handleSendMessage (content : jsstring) : Prog ChatResponse unit :=
  if negb (truthy_text (trim content)) then Return tt else
  now <- new_Date ;;
  let userMessage :=
    {| role := user; content := content; timestamp := Some now |} in
  setConversation (fun prev =>
    {| messages := (messages prev ++ [userMessage])%list;
       isLoading := true;
       error := None |}) ;;
  try_catch
    (response <- simulateApiCall content ;;
     now <- new_Date ;;
     let assistantMessage :=
       {| role := assistant; content := text response;
          timestamp := Some now |} in
     setConversation (fun prev =>
       {| messages := (messages prev ++ [assistantMessage])%list;
          isLoading := false;
          error := error prev |}) ;;
     match audioUrl response with
     | Some url =>
         if truthy url then
           current <- audioPlayerRef_current ;;
           if (current : bool) then audio_set_src url ;; audio_play
           else Return tt
         else Return tt
     | None => Return tt
     end)
    (fun e =>
       setConversation (fun prev =>
         {| messages := messages prev;
            isLoading := false;
            error := Some (match e with
                           | Error message => message
                           | NotAnError => "Failed to send message"
                           end) |})).

End Conversation.

(* ===================================================================== *)
(** ** components/EnhancedConversation.tsx                                *)
(* ===================================================================== *)

Section EnhancedConversation.
Context {api : ApiService}.

Definition handleStartConversation : Prog ChatResponse unit :=
  setIsConversationActive true.

Definition handleEndConversation : Prog ChatResponse unit :=
  setIsConversationActive false ;;
  setConversation (fun prev =>
    {| messages := []; isLoading := isLoading prev; error := error prev |}).

Definition handleSendMessage (content : jsstring) : Prog ChatResponse unit :=
  if negb (truthy_text (trim content)) then Return tt else
  now <- new_Date ;;
  let userMessage :=
    {| role := user; content := content; timestamp := Some now |} in
  setConversation (fun prev =>
    {| messages := (messages prev ++ [userMessage])%list;
       isLoading := true;
       error := None |}) ;;
  try_catch
    (response <- sendTextMessage content ;;
     now <- new_Date ;;
     let assistantMessage :=
       {| role := assistant; content := text response;
          timestamp := Some now |} in
     setConversation (fun prev =>
       {| messages := (messages prev ++ [assistantMessage])%list;
          isLoading := false;
          error := error prev |}) ;;
     match audio_url response with
     | Some url =>
         if truthy url then
           current <- audioPlayerRef_current ;;
           if (current : bool) then audio_set_src url ;; audio_play
           else Return tt
         else Return tt
     | None => Return tt
     end)
    (fun e =>
       setConversation (fun prev =>
         {| messages := messages prev;
            isLoading := false;
            error := Some (match e with
                           | Error message => message
                           | NotAnError => "An error occurred"
                           end) |})).

Definition handleProcessRecording (audioBlob : Blob) : Prog ChatResponse unit :=
  setConversation (fun prev =>
    {| messages := messages prev; isLoading := true; error := None |}) ;;
  try_catch
    (response <- sendAudioMessage audioBlob ;;
     now <- new_Date ;;
     let userMessage :=
       {| role := user; content := js "[Voice Message]";
          timestamp := Some now |} in
     now' <- new_Date ;;
     let assistantMessage :=
       {| role := assistant; content := text response;
          timestamp := Some now' |} in
     setConversation (fun prev =>
       {| messages := (messages prev ++ [userMessage; assistantMessage])%list;
          isLoading := false;
          error := error prev |}) ;;
     match audio_url response with
     | Some url =>
         if truthy url then
           current <- audioPlayerRef_current ;;
           if (current : bool) then audio_set_src url ;; audio_play
           else Return tt
         else Return tt
     | None => Return tt
     end)
    (fun e =>
       setConversation (fun prev =>
         {| messages := messages prev;
            isLoading := false;
            error := Some (match e with
                           | Error message => message
                           | NotAnError => "An error occurred"
                           end) |})).

(* ------------------------------------------------------------------- *)
(** *** components/AnimatedAudioRecorder.tsx                            *)
(* ------------------------------------------------------------------- *)

(** Modelled from the spec: [clearRecording] of the [useAudioRecorder]
    hook, whose file is not part of the sources at hand; the spec's
    [discardRecording] "drops the staged clip without sending; no
    transcript change". *)
Definition clearRecording (w : World) : World := with_audioBlob None w.

(** Modelled from the spec: the end of a recording by the
    [useAudioRecorder] hook, whose file is not part of the sources at
    hand; after the spec's [endRecording] "the controller holds the
    resulting clip for review": the clip is staged, not sent. *)
Definition stage_clip (clip : Blob) (w : World) : World :=
  with_audioBlob (Some clip) w.

(** The recorder's own [handleProcessRecording], with [onProcessRecording]
    bound to the conversation's handler.  [audioBlob] is the clip held by
    the render the function belongs to. *)
Definition recorder_handleProcessRecording (audioBlob : option Blob)
    (w : World) : World :=
  match audioBlob with
  | Some b => clearRecording (run (handleProcessRecording b) w)
  | None => w
  end.

(* ------------------------------------------------------------------- *)
(** *** What can happen to the component                                *)
(* ------------------------------------------------------------------- *)

Inductive Event : Type :=
| StartConversation
| EndConversation
| SendMessage (content : jsstring)
| ProcessRecording (audioBlob : Blob)
| Recorded (clip : Blob)
| ClickSend (staged : option Blob) (disabled : bool)
| Settle (i : nat) (o : FetchOutcome ChatResponse)
| Tick.

(** [Recorded clip] is the end of a recording, which stages the clip.
    [ClickSend staged disabled] is a click on a Send button of the
    recorder.  The button belongs to some render of the recorder, which
    need not be the latest one (a card that is being animated out keeps
    the button of its last render): [staged] is the clip and [disabled]
    the value of [isLoading] that render was made with.  A disabled
    button fires no [onClick].
    [Settle i o] delivers the outcome [o] to the [i]-th parked handler. *)
Definition step (w : World) (e : Event) : World :=
  match e with
  | StartConversation => run handleStartConversation w
  | EndConversation => run handleEndConversation w
  | SendMessage c => run (handleSendMessage c) w
  | ProcessRecording b => run (handleProcessRecording b) w
  | Recorded clip => stage_clip clip w
  | ClickSend staged disabled =>
      if disabled then w
      else recorder_handleProcessRecording staged w
  | Settle i o =>
      match nth_error (pending w) i with
      | Some k => run (k o) (with_pending (remove_nth i (pending w)) w)
      | None => w
      end
  | Tick => with_clock (S (clock w)) w
  end.

Definition steps (w : World) (es : list Event) : World := fold_left step es w.

(* --------------------------------------------------------------------- *)
(** *** Parked handlers, and exchanges made one after the other           *)
(* --------------------------------------------------------------------- *)

(** Running [p] adds messages at the end and parks nothing. *)
Definition appending (p : Prog ChatResponse unit) : Prop :=
  forall w,
    pending (run p w) = pending w /\
    exists more, messages (conversation (run p w))
                 = (messages (conversation w) ++ more)%list.

(** The invariant of the component: whatever a parked handler is
    resumed with, it only appends. *)
Definition parked_append (w : World) : Prop :=
  Forall (fun k => forall o, appending (k o)) (pending w).

(** A call together with the outcome of its request, the request being
    settled before anything else happens. *)
Inductive Exchange : Type :=
| TextExchange (content : jsstring) (o : FetchOutcome ChatResponse)
| VoiceExchange (b : Blob) (o : FetchOutcome ChatResponse).

Definition events_of (x : Exchange) : list Event :=
  match x with
  | TextExchange content o => [SendMessage content; Settle 0 o]
  | VoiceExchange b o => [ProcessRecording b; Settle 0 o]
  end.

(** The turns an exchange is expected to leave: the user turn, then
    the assistant turn if the service returned a reply. *)
Definition turns_of (x : Exchange) : list (Role * jsstring) :=
  match x with
  | TextExchange content o =>
      if all_whitespace content then []
      else (user, content) ::
           match reply (sendTextMessage content) o with
           | Some (inr r) => [(assistant, text r)]
           | _ => []
           end
  | VoiceExchange b o =>
      match reply (sendAudioMessage b) o with
      | Some (inr r) => [(user, js "[Voice Message]"); (assistant, text r)]
      | _ => []
      end
  end.

End EnhancedConversation.

(** The component as mounted: nothing said, nothing loading, the hidden
    [<audio>] element in place. *)
Definition mounted : World :=
  {| conversation := {| messages := []; isLoading := false; error := None |};
     isConversationActive := false;
     audioPlayerRef := Some (mkAudio EmptyString []);
     audioBlob := None;
     clock := 0;
     network := [];
     pending := [] |}.

(** A response with status 200 and a body that parses to [v]. *)
Definition ok_json {B} (v : B) : FetchOutcome B :=
  Responded {| status := 200; statusText := "OK"; body_text := EmptyString;
               body_json := inr v; body_blob := mkBlob [] EmptyString |}.

(** A response with a failure status and a plain-text body. *)
Definition failure {B} (code : Z) (reason detail : string) : FetchOutcome B :=
  Responded {| status := code; statusText := reason; body_text := detail;
               body_json := inl (Error "Unexpected token");
               body_blob := mkBlob [] EmptyString |}.

(* ===================================================================== *)
(** ** What a method of the service owes its caller                       *)
(* ===================================================================== *)

(** What a method of the service does with the outcome of its request.
    [p] issues one request and then settles.  A rejected [fetch] is
    rethrown as it is.  A response outside 200-299 is thrown as an
    [Error] whose message is [prefix], the status text and [detail].  A
    response inside 200-299 is handed to [decode], whose result (value or
    rejection) is the result of the call. *)
Definition checks_status {B T} (prefix : string) (detail : Response B -> string)
    (decode : Response B -> Thrown + T) (p : Prog B T) : Prop :=
  one_round_trip p /\
  (forall e, reply p (Rejected e) = Some (inl e)) /\
  (forall r, ~ (200 <= status r <= 299)%Z ->
     reply p (Responded r)
     = Some (inl (Error (prefix ++ statusText r ++ detail r)))) /\
  (forall r, (200 <= status r <= 299)%Z ->
     reply p (Responded r) = Some (decode r)).

(** [" - " ++ errorText], the body as text. *)
Definition with_body {B} (r : Response B) : string := " - " ++ body_text r.

Definition as_json {B} (r : Response B) : Thrown + B := body_json r.
Definition as_blob {B} (r : Response B) : Thrown + Blob := inr (body_blob r).

(* ===================================================================== *)
(** ** A component to run                                                 *)
(* ===================================================================== *)

(** The component wired to the fuller revision of the service, with the
    default base URL. *)
Definition the_api : ApiService := api_v2 None.

Definition session (es : list Event) : World := steps (api := the_api) mounted es.

Definition clip : Blob := mkBlob [26; 69; 223; 163] "audio/webm".

Definition unavailable : FetchOutcome ChatResponse :=
  failure 503 "Service Unavailable" "upstream timed out".

(* ===================================================================== *)
(** ** The component as a state machine                                   *)
(* ===================================================================== *)

(** The message a [catch] block of [EnhancedConversation] shows. *)
Definition error_message (e : Thrown) : string :=
  match e with
  | Error message => message
  | NotAnError => "An error occurred"
  end.

(** How an exchange can end: with the reply to a text message, with the
    reply to a clip, or with something thrown. *)
Inductive Completion : Type :=
| TextReply (r : ChatResponse)
| VoiceReply (r : ChatResponse)
| Failed (e : Thrown).

(** The net effect of the playback guard: the element's source is set to
    the reply's [audio_url] and played, if that is a non-empty string and
    the element is mounted. *)
Definition sound (r : ChatResponse) (w : World) : World :=
  match audio_url r with
  | Some u =>
      if truthy u then
        match audioPlayerRef w with
        | Some a =>
            with_audioPlayerRef (Some (mkAudio u (played a ++ [u])%list)) w
        | None => w
        end
      else w
  | None => w
  end.

(** The net effect of a completed exchange on the world it completes in,
    to be compared with what the parked handlers do. *)
Definition complete (x : Completion) (w : World) : World :=
  match x with
  | TextReply r =>
      sound r
        (with_conversation
           {| messages := (messages (conversation w)
                           ++ [mkMessage assistant (text r) (Some (clock w))])%list;
              isLoading := false;
              error := error (conversation w) |} w)
  | VoiceReply r =>
      sound r
        (with_conversation
           {| messages := (messages (conversation w)
                           ++ [mkMessage user (js "[Voice Message]") (Some (clock w));
                               mkMessage assistant (text r) (Some (clock w))])%list;
              isLoading := false;
              error := error (conversation w) |} w)
  | Failed e =>
      with_conversation
        {| messages := messages (conversation w);
           isLoading := false;
           error := Some (error_message e) |} w
  end.

Definition completion_of (reply_kind : ChatResponse -> Completion)
    (res : option (Thrown + ChatResponse)) : Completion :=
  match res with
  | Some (inr r) => reply_kind r
  | Some (inl e) => Failed e
  | None => Failed NotAnError
  end.

(** Whatever [parked] is resumed with, and wherever, it acts as one
    completion. *)
Definition acts_as_completion
    (parked : FetchOutcome ChatResponse -> Prog ChatResponse unit) : Prop :=
  forall o, exists x, forall w, run (parked o) w = complete x w.

Definition parked_known (w : World) : Prop :=
  Forall acts_as_completion (pending w).

(** The state the conversation is put in when a call is made. *)
Definition calling (more : list Message) (w : World) : World :=
  with_conversation
    {| messages := (messages (conversation w) ++ more)%list;
       isLoading := true;
       error := None |} w.

(** The transitions of the component, each with the requests it puts
    on the network: nothing happens; the conversation is started; it is
    ended; a call is made (with or without a user turn, and with the
    staged clip kept or dropped); a clip is staged; an exchange
    completes; the clock advances.  To be compared with [step]. *)
Inductive transition (w : World) : list (string * RequestInit) -> World -> Prop :=
| t_idle : transition w [] w
| t_activate : transition w [] (with_isConversationActive true w)
| t_finish :
    transition w []
      (with_conversation
         {| messages := [];
            isLoading := isLoading (conversation w);
            error := error (conversation w) |}
         (with_isConversationActive false w))
| t_call url init parked more staged :
    acts_as_completion parked ->
    more = [] \/ (exists c, more = [mkMessage user c (Some (clock w))]) ->
    staged = audioBlob w \/ staged = None ->
    transition w [(url, init)]
      (with_audioBlob staged (suspend url init parked (calling more w)))
| t_stage clip : transition w [] (with_audioBlob (Some clip) w)
| t_completion i parked x :
    nth_error (pending w) i = Some parked ->
    transition w []
      (complete x (with_pending (remove_nth i (pending w)) w))
| t_tick : transition w [] (with_clock (S (clock w)) w).

(** The world with one more request on the network. *)
Definition with_request (q : string * RequestInit) (w : World) : World :=
  mkWorld (conversation w) (isConversationActive w) (audioPlayerRef w)
          (audioBlob w) (clock w) (network w ++ [q])%list (pending w).

(** The time stamps of [ms] start at [lo] or later, never decrease and
    end at [hi] or earlier. *)
Fixpoint chrono_from (lo : Date) (ms : list Message) (hi : Date) : Prop :=
  match ms with
  | [] => lo <= hi
  | m :: ms' =>
      match timestamp m with
      | Some d => lo <= d /\ chrono_from d ms' hi
      | None => False
      end
  end.

Definition chronological (w : World) : Prop :=
  chrono_from 0 (messages (conversation w)) (clock w).

Section Requests.
Context {api : ApiService}.

(** An event that calls the service: a text message that is not blank,
    or a clip. *)
Definition is_call (e : Event) : bool :=
  match e with
  | SendMessage c => truthy_text (trim c)
  | ProcessRecording _ => true
  | _ => false
  end.

Definition request_of_text (c : jsstring) : list (string * RequestInit) :=
  if truthy_text (trim c) then
    match first_request (sendTextMessage c) with
    | Some q => [q]
    | None => []
    end
  else [].

Definition request_of_voice (b : Blob) : list (string * RequestInit) :=
  match first_request (sendAudioMessage b) with
  | Some q => [q]
  | None => []
  end.

(** The requests an event is expected to put on the network. *)
Definition requests_of (e : Event) (w : World) : list (string * RequestInit) :=
  match e with
  | SendMessage c => request_of_text c
  | ProcessRecording b => request_of_voice b
  | ClickSend staged disabled =>
      if disabled then []
      else match staged with
           | Some b => request_of_voice b
           | None => []
           end
  | _ => []
  end.

End Requests.

(** The two requests the component makes of the later revision of the
    service. *)
Definition chat_request (env : option string) (c : jsstring)
  : string * RequestInit :=
  (base_url env ++ "/api/chat",
   {| method := Some "POST";
      headers := Some [("Content-Type", "application/json")];
      body := Some (JSON_stringify [("text", c)]) |}).

Definition audio_chat_request (env : option string) (b : Blob)
  : string * RequestInit :=
  (base_url env ++ "/api/audio-chat",
   {| method := Some "POST";
      headers := None;
      body := Some (FormData [("audio", b, "recording.webm")]) |}).

Definition component_request (env : option string) (q : string * RequestInit)
  : Prop :=
  (exists c, q = chat_request env c) \/ (exists b, q = audio_chat_request env b).

(** The text [simulateApiCall] of [Conversation.tsx] answers with. *)
Definition simulated_text (c : jsstring) : jsstring :=
  (js "Simulated response to: " ++ Conversation.dquote ++ c
   ++ Conversation.dquote ++ js ". Backend integration pending.")%list.

(* ===================================================================== *)
(** ** Facts about [trim]                                                 *)
(* ===================================================================== *)

Lemma trimStart_all_whitespace s :
  all_whitespace s = true -> trimStart s = [].
Proof.
  induction s as [| c s IH]; cbn [all_whitespace trimStart]; [reflexivity |].
  intros H. apply andb_true_iff in H as [Hc Hs].
  rewrite Hc. auto.
Qed.

Lemma trimEnd_empty s : trimEnd s = [] -> all_whitespace s = true.
Proof.
  induction s as [| c s IH]; cbn [all_whitespace trimEnd]; [reflexivity |].
  destruct (trimEnd s) eqn:E; [| discriminate].
  destruct (isWhiteSpace c); [| discriminate].
  intros _. auto.
Qed.

Lemma trimStart_whitespace_back s :
  all_whitespace (trimStart s) = true -> all_whitespace s = true.
Proof.
  induction s as [| c s IH]; cbn [all_whitespace trimStart]; [reflexivity |].
  destruct (isWhiteSpace c) eqn:E; cbn [andb]; [assumption |].
  cbn [all_whitespace]. rewrite E. discriminate.
Qed.

(** [!content.trim()] holds exactly of the strings made of white space. *)
Lemma blank_iff s : truthy_text (trim s) = false <-> all_whitespace s = true.
Proof.
  unfold trim. split.
  - intros H. apply trimStart_whitespace_back, trimEnd_empty.
    destruct (trimEnd (trimStart s)); [reflexivity | discriminate].
  - intros H. rewrite (trimStart_all_whitespace _ H). reflexivity.
Qed.

Lemma not_blank s : all_whitespace s = false -> truthy_text (trim s) = true.
Proof.
  intros H. destruct (truthy_text (trim s)) eqn:E; [reflexivity |].
  apply blank_iff in E. congruence.
Qed.

(* ===================================================================== *)
(** ** Parking and resuming a handler                                     *)
(* ===================================================================== *)

Lemma nth_error_snoc {A} (l : list A) (x : A) :
  nth_error (l ++ [x])%list (length l) = Some x.
Proof.
  rewrite nth_error_app2 by lia. rewrite Nat.sub_diag. reflexivity.
Qed.

Lemma remove_nth_snoc {A} (l : list A) (x : A) :
  remove_nth (length l) (l ++ [x])%list = l.
Proof.
  unfold remove_nth.
  rewrite firstn_app, Nat.sub_diag, firstn_all. cbn [firstn].
  rewrite skipn_all2 by (rewrite length_app; cbn; lia).
  now rewrite !app_nil_r.
Qed.

(** A program that has settled is a [Return] or a [Throw]. *)
Lemma settled_inv {B T} (p : Prog B T) :
  settled p = true -> (exists v, p = Return v) \/ (exists e, p = Throw e).
Proof.
  destruct p; cbn; try discriminate; intros _; eauto.
Qed.

(** A one-request program hands its caller a result whatever the outcome. *)
Lemma reply_round_trip {B T} (p : Prog B T) o :
  one_round_trip p -> exists res, reply p o = Some res.
Proof.
  intros (url & init & k & -> & S). unfold reply. cbn.
  destruct (settled_inv _ (S o)) as [[v ->] | [e ->]]; cbn; eauto.
Qed.

(* ===================================================================== *)
(** ** The conversation component: one exchange at a time                 *)
(* ===================================================================== *)

Section Exchanges.

Context {api : ApiService}.

(** Open the call of a handler: the service's method is one request. *)
Ltac open_text c Hc :=
  let url := fresh "url" in let init := fresh "init" in
  let k := fresh "k" in let E := fresh "E" in let S := fresh "S" in
  destruct (sendTextMessage_round_trip c) as (url & init & k & E & S);
  cbv zeta; unfold steps, reply in *; cbn [fold_left step];
  unfold handleSendMessage; rewrite ?Hc, ?E in *; cbn in *;
  rewrite ?nth_error_snoc, ?remove_nth_snoc.

Ltac open_audio b :=
  let url := fresh "url" in let init := fresh "init" in
  let k := fresh "k" in let E := fresh "E" in let S := fresh "S" in
  destruct (sendAudioMessage_round_trip b) as (url & init & k & E & S);
  cbv zeta; unfold steps, reply in *; cbn [fold_left step];
  unfold handleProcessRecording; rewrite ?E in *; cbn in *;
  rewrite ?nth_error_snoc, ?remove_nth_snoc.

(** The three ways the playback guard can go. *)
Ltac play_cases r w :=
  let u := fresh "u" in
  destruct (audio_url r) as [u |]; cbn;
  [destruct (truthy u); cbn; [destruct (audioPlayerRef w); cbn |] |].

(** The parked handler resumes with what the service hands over. *)
Ltac settle_with k o H :=
  destruct (k o); cbn in H; try discriminate H;
  injection H as H; subst; cbn.

(** C10.  A [content] that is empty or made of white space only (any of
    the code units [trim] strips, those above U+00FF included) makes
    [handleSendMessage] return at once, in [EnhancedConversation] and in
    [Conversation] alike: no message is appended, no request is issued,
    no handler is parked; the whole world, and with it [messages],
    [isLoading] and [error], is as before. *)
Theorem blank_content_is_noop (w : World) (content : jsstring) :
  all_whitespace content = true ->
  step w (SendMessage content) = w /\
  run (Conversation.handleSendMessage content) w = w.
Proof.
  intros H. apply blank_iff in H.
  cbn. unfold handleSendMessage, Conversation.handleSendMessage.
  rewrite H. split; reflexivity.
Qed.

(** C5.  A [handleSendMessage content] with content that is not blank,
    whose request then fails (the service throws [e]): the user turn
    appended at the call is still there and is the last turn, no
    assistant turn was added, [error] holds the message of the error
    the service threw, [isLoading] is false again, nothing was played
    and the conversation is as active as before.  Should the failure
    come later, in whatever world [w'] the component is by then, the
    parked handler leaves the transcript of [w'] as it is, lowers
    [isLoading] and records the same message. *)
Theorem failed_text_exchange_keeps_user_turn
    (w : World) (content : jsstring) (o : FetchOutcome ChatResponse)
    (e : Thrown) :
  all_whitespace content = false ->
  reply (sendTextMessage content) o = Some (inl e) ->
  let w1 := step w (SendMessage content) in
  let w2 := step w1 (Settle (length (pending w)) o) in
  transcript w1 = (transcript w ++ [(user, content)])%list /\
  isLoading (conversation w1) = true /\
  transcript w2 = (transcript w ++ [(user, content)])%list /\
  isLoading (conversation w2) = false /\
  error (conversation w2) =
    Some (match e with Error m => m | NotAnError => "An error occurred" end) /\
  play_calls w2 = play_calls w /\
  isConversationActive w2 = isConversationActive w /\
  pending w2 = pending w /\
  exists parked,
    nth_error (pending w1) (length (pending w)) = Some parked /\
    forall w',
      let w2' := run (parked o) w' in
      transcript w2' = transcript w' /\
      isLoading (conversation w2') = false /\
      error (conversation w2') =
        Some (match e with Error m => m | NotAnError => "An error occurred" end).
Proof.
  intros Hc Hr. apply not_blank in Hc.
  open_text content Hc.
  assert (Hk : k o = Throw e).
  { destruct (k o); cbn in Hr; try discriminate Hr. now injection Hr as ->. }
  rewrite Hk. cbn.
  unfold transcript, play_calls. cbn. rewrite map_app.
  do 8 (split; [reflexivity |]).
  eexists. split; [reflexivity |].
  intros w'. cbn. rewrite Hk. cbn.
  repeat split; reflexivity.
Qed.

(** C6, as the code has it.  At the call [handleProcessRecording] only
    raises [isLoading] and clears [error]: the messages are what they
    were, one request is issued and one handler is parked.  The
    placeholder user turn and the assistant turn are appended together
    when the service returns a reply; when the service throws, the
    transcript is what it was before the call, [error] holds the
    message and [isLoading] is false again. *)
Theorem voice_turns_appended_on_reply
    (w : World) (b : Blob) (o : FetchOutcome ChatResponse) :
  let w1 := step w (ProcessRecording b) in
  let w2 := step w1 (Settle (length (pending w)) o) in
  messages (conversation w1) = messages (conversation w) /\
  transcript w1 = transcript w /\
  isLoading (conversation w1) = true /\
  error (conversation w1) = None /\
  first_request (sendAudioMessage b) <> None /\
  (forall q, first_request (sendAudioMessage b) = Some q ->
     network w1 = (network w ++ [q])%list) /\
  length (pending w1) = S (length (pending w)) /\
  isConversationActive w1 = isConversationActive w /\
  audioPlayerRef w1 = audioPlayerRef w /\
  (forall r, reply (sendAudioMessage b) o = Some (inr r) ->
     transcript w2 =
       (transcript w ++ [(user, js "[Voice Message]"); (assistant, text r)])%list) /\
  (forall e, reply (sendAudioMessage b) o = Some (inl e) ->
     transcript w2 = transcript w /\
     isLoading (conversation w2) = false /\
     error (conversation w2) =
       Some (match e with Error m => m | NotAnError => "An error occurred" end) /\
     pending w2 = pending w).
Proof.
  open_audio b.
  do 4 (split; [reflexivity |]).
  split; [discriminate |].
  split; [intros q Hq; injection Hq as <-; reflexivity |].
  split; [rewrite length_app; cbn; lia |].
  do 2 (split; [reflexivity |]).
  split.
  - intros r Hr. settle_with k o Hr.
    assert (T : forall w', transcript w' =
              map (fun m => (role m, content m)) (messages (conversation w')))
      by reflexivity.
    play_cases r w; rewrite T; cbn; rewrite map_app; reflexivity.
  - intros e He. settle_with k o He. repeat split; reflexivity.
Qed.

(** C7, as the code has it.  A [handleProcessRecording] whose request
    brings back the reply [r], with the audio element mounted: the
    transcript gains the placeholder user turn and right after it the
    assistant turn with [r]'s text; the audio element gets exactly one
    [play()], with [r]'s [audio_url] as source, when that is a
    non-empty string, and none when it is missing or empty. *)
Theorem voice_reply_appended_and_played
    (w : World) (b : Blob) (o : FetchOutcome ChatResponse)
    (r : ChatResponse) (el : HTMLAudioElement) :
  audioPlayerRef w = Some el ->
  reply (sendAudioMessage b) o = Some (inr r) ->
  let w2 := steps w [ProcessRecording b; Settle (length (pending w)) o] in
  transcript w2 =
    (transcript w ++ [(user, js "[Voice Message]"); (assistant, text r)])%list /\
  isLoading (conversation w2) = false /\
  (forall u, audio_url r = Some u -> u <> EmptyString ->
     play_calls w2 = (play_calls w ++ [u])%list) /\
  (audio_url r = None \/ audio_url r = Some EmptyString ->
     play_calls w2 = play_calls w).
Proof.
  intros Hel Hr. open_audio b. settle_with k o Hr.
  unfold transcript, play_calls.
  destruct (audio_url r) as [[| c u] |]; cbn;
    rewrite ?Hel; cbn; rewrite ?Hel; cbn; rewrite map_app;
    (split; [reflexivity |]); (split; [reflexivity |]); split.
  - intros u' Hu Hne. injection Hu as <-. congruence.
  - reflexivity.
  - intros u' Hu _. injection Hu as <-. reflexivity.
  - intros [H | H]; discriminate.
  - intros u' Hu. discriminate.
  - reflexivity.
Qed.

(** C3, as the code has it.  Whatever the world, [handleEndConversation]
    leaves the conversation inactive and the transcript empty; it does
    not touch [isLoading] or [error], and it neither removes a parked
    handler nor stops the audio element. *)
Theorem end_conversation_clears_messages_only (w : World) :
  let w' := step w EndConversation in
  isConversationActive w' = false /\
  messages (conversation w') = [] /\
  isLoading (conversation w') = isLoading (conversation w) /\
  error (conversation w') = error (conversation w) /\
  pending w' = pending w /\
  audioPlayerRef w' = audioPlayerRef w.
Proof. cbn. repeat split; reflexivity. Qed.

(** C4, as the code has it.  [handleEndConversation] called while a
    request is outstanding leaves the handler parked; when the reply
    [r] arrives afterwards it is applied to the emptied transcript,
    which then reads: the assistant turn (text exchange), or the
    placeholder user turn and the assistant turn (voice exchange). *)
Theorem late_reply_applied_after_end
    (w : World) (o : FetchOutcome ChatResponse) (r : ChatResponse) :
  (forall content,
     all_whitespace content = false ->
     reply (sendTextMessage content) o = Some (inr r) ->
     let w1 := steps w [SendMessage content; EndConversation] in
     length (pending w1) = S (length (pending w)) /\
     transcript w1 = [] /\
     transcript (step w1 (Settle (length (pending w)) o))
       = [(assistant, text r)]) /\
  (forall b,
     reply (sendAudioMessage b) o = Some (inr r) ->
     let w1 := steps w [ProcessRecording b; EndConversation] in
     length (pending w1) = S (length (pending w)) /\
     transcript w1 = [] /\
     transcript (step w1 (Settle (length (pending w)) o))
       = [(user, js "[Voice Message]"); (assistant, text r)]).
Proof.
  assert (T : forall w', transcript w' =
            map (fun m => (role m, content m)) (messages (conversation w')))
    by reflexivity.
  split.
  - intros content Hc Hr. apply not_blank in Hc.
    open_text content Hc.
    split; [rewrite length_app; cbn; lia |]. split; [reflexivity |].
    settle_with k o Hr.
    play_cases r w; rewrite ?T; reflexivity.
  - intros b Hr. open_audio b.
    split; [rewrite length_app; cbn; lia |]. split; [reflexivity |].
    settle_with k o Hr.
    play_cases r w; rewrite ?T; reflexivity.
Qed.

(** C1, as the code has it.  While [isLoading] is true neither handler
    rejects a call, and neither records a busy condition: [error] is
    null after the call and [isLoading] stays true.
    [handleProcessRecording] leaves [messages] as they are at the call,
    and issues a request and parks a handler all the same;
    [handleSendMessage] with content that is not blank appends its user
    turn, issues a request and parks a handler. *)
Theorem calls_while_loading (w : World) :
  isLoading (conversation w) = true ->
  (forall b,
     let w' := step w (ProcessRecording b) in
     messages (conversation w') = messages (conversation w) /\
     isLoading (conversation w') = true /\
     error (conversation w') = None /\
     length (network w') = S (length (network w)) /\
     length (pending w') = S (length (pending w))) /\
  (forall content,
     all_whitespace content = false ->
     let w' := step w (SendMessage content) in
     transcript w' = (transcript w ++ [(user, content)])%list /\
     isLoading (conversation w') = true /\
     error (conversation w') = None /\
     length (network w') = S (length (network w)) /\
     length (pending w') = S (length (pending w))).
Proof.
  intros HL. split.
  - intros b. open_audio b. rewrite !length_app. cbn.
    repeat split; lia.
  - intros content Hc. apply not_blank in Hc. open_text content Hc.
    unfold transcript. cbn. rewrite map_app, !length_app. cbn.
    repeat split; lia.
Qed.

(* ------------------------------------------------------------------- *)
(** *** Every parked handler only appends                               *)
(* ------------------------------------------------------------------- *)

Lemma Forall_remove_nth {A} (P : A -> Prop) (l : list A) :
  Forall P l -> forall i, Forall P (remove_nth i l).
Proof.
  unfold remove_nth.
  induction 1 as [| a l Ha Hl IH]; intros [| i]; cbn; auto.
Qed.

Ltac appended :=
  split; [reflexivity |];
  first [ eexists; reflexivity
        | exists []; cbn; now rewrite app_nil_r ].

Lemma parked_append_send w content :
  parked_append w -> parked_append (run (handleSendMessage content) w).
Proof.
  intros I. unfold handleSendMessage.
  destruct (truthy_text (trim content)); cbn; [| assumption].
  destruct (sendTextMessage_round_trip content) as (url & init & k & E & S).
  rewrite E. cbn. unfold parked_append. cbn.
  apply Forall_app. split; [assumption |].
  constructor; [| constructor]. intros o.
  destruct (settled_inv _ (S o)) as [[v ->] | [e ->]]; cbn; intros w'; cbn.
  - play_cases v w'; appended.
  - appended.
Qed.

Lemma parked_append_voice w b :
  parked_append w -> parked_append (run (handleProcessRecording b) w).
Proof.
  intros I. unfold handleProcessRecording.
  destruct (sendAudioMessage_round_trip b) as (url & init & k & E & S).
  rewrite E. cbn. unfold parked_append. cbn.
  apply Forall_app. split; [assumption |].
  constructor; [| constructor]. intros o.
  destruct (settled_inv _ (S o)) as [[v ->] | [e ->]]; cbn; intros w'; cbn.
  - play_cases v w'; appended.
  - appended.
Qed.

Lemma parked_append_step w e :
  parked_append w -> parked_append (step w e).
Proof.
  intros I. destruct e as [| | c | b | clip | staged disabled | i o |]; cbn [step].
  - exact I.
  - exact I.
  - now apply parked_append_send.
  - now apply parked_append_voice.
  - exact I.
  - destruct disabled; [exact I |].
    unfold recorder_handleProcessRecording.
    destruct staged as [b |]; [| exact I].
    apply (parked_append_voice b) in I. exact I.
  - destruct (nth_error (pending w) i) as [k |] eqn:N; [| exact I].
    unfold parked_append in *.
    pose proof (proj1 (Forall_forall _ _) I k (nth_error_In _ _ N) o) as A.
    destruct (A (with_pending (remove_nth i (pending w)) w)) as [P _].
    rewrite P. cbn. now apply Forall_remove_nth.
  - exact I.
Qed.

Lemma parked_append_steps es : forall w,
  parked_append w -> parked_append (steps w es).
Proof.
  unfold steps. induction es as [| e es IH]; cbn; intros w I; [exact I |].
  apply IH. now apply parked_append_step.
Qed.

(** Short of [EndConversation], a step only appends to [messages]. *)
Lemma step_appends w e :
  parked_append w -> e <> EndConversation ->
  exists more, messages (conversation (step w e))
               = (messages (conversation w) ++ more)%list.
Proof.
  intros I Ne.
  assert (Same : exists more : list Message,
             messages (conversation w)
             = (messages (conversation w) ++ more)%list)
    by (exists []; now rewrite app_nil_r).
  assert (Voice : forall b, exists more,
             messages (conversation (run (handleProcessRecording b) w))
             = (messages (conversation w) ++ more)%list).
  { intros b. unfold handleProcessRecording.
    destruct (sendAudioMessage_round_trip b) as (url & init & k & E & S).
    rewrite E. cbn. exact Same. }
  destruct e as [| | c | b | clip | staged disabled | i o |]; cbn [step].
  - exact Same.
  - congruence.
  - unfold handleSendMessage.
    destruct (truthy_text (trim c)); cbn; [| exact Same].
    destruct (sendTextMessage_round_trip c) as (url & init & k & E & S).
    rewrite E. cbn. eexists; reflexivity.
  - apply Voice.
  - exact Same.
  - destruct disabled; [exact Same |].
    unfold recorder_handleProcessRecording.
    destruct staged as [b |]; [| exact Same].
    apply Voice.
  - destruct (nth_error (pending w) i) as [k |] eqn:N; [| exact Same].
    pose proof (proj1 (Forall_forall _ _) I k (nth_error_In _ _ N) o) as A.
    destruct (A (with_pending (remove_nth i (pending w)) w)) as [_ M].
    exact M.
  - exact Same.
Qed.

Lemma steps_append es : forall w,
  parked_append w ->
  Forall (fun e => e <> EndConversation) es ->
  exists more, messages (conversation (steps w es))
               = (messages (conversation w) ++ more)%list.
Proof.
  unfold steps. induction es as [| e es IH]; cbn; intros w I F.
  - exists []. now rewrite app_nil_r.
  - inversion F as [| ? ? Ne F']; subst.
    destruct (step_appends I Ne) as [m1 H1].
    destruct (IH (step w e) (parked_append_step e I) F') as [m2 H2].
    exists (m1 ++ m2)%list. rewrite H2, H1. now rewrite app_assoc.
Qed.

(* ------------------------------------------------------------------- *)
(** *** Exchanges made one after the other                              *)
(* ------------------------------------------------------------------- *)

Lemma one_exchange w x :
  pending w = [] ->
  pending (steps w (events_of x)) = [] /\
  transcript (steps w (events_of x)) = (transcript w ++ turns_of x)%list.
Proof.
  intros Hp.
  assert (T : forall w', transcript w' =
            map (fun m => (role m, content m)) (messages (conversation w')))
    by reflexivity.
  destruct x as [c o | b o]; unfold steps, events_of, turns_of, reply;
    cbn [fold_left step].
  - destruct (all_whitespace c) eqn:Hc.
    + apply blank_iff in Hc. unfold handleSendMessage. rewrite Hc. cbn.
      rewrite Hp. cbn. now rewrite app_nil_r.
    + apply not_blank in Hc. unfold handleSendMessage. rewrite Hc.
      destruct (sendTextMessage_round_trip c) as (url & init & k & E & S).
      rewrite E. cbn. rewrite Hp. cbn.
      destruct (settled_inv _ (S o)) as [[v ->] | [e ->]]; cbn.
      * play_cases v w; rewrite T; cbn; rewrite !map_app, <- ?app_assoc;
          split; reflexivity.
      * rewrite T. cbn. rewrite map_app. split; reflexivity.
  - unfold handleProcessRecording.
    destruct (sendAudioMessage_round_trip b) as (url & init & k & E & S).
    rewrite E. cbn. rewrite Hp. cbn.
    destruct (settled_inv _ (S o)) as [[v ->] | [e ->]]; cbn.
    + play_cases v w; rewrite T; cbn; rewrite map_app;
        split; reflexivity.
    + rewrite T. cbn. rewrite app_nil_r. split; reflexivity.
Qed.

Arguments one_exchange : clear implicits.

Lemma exchanges_in_turn xs : forall w,
  pending w = [] ->
  pending (steps w (flat_map events_of xs)) = [] /\
  transcript (steps w (flat_map events_of xs))
    = (transcript w ++ flat_map turns_of xs)%list.
Proof.
  induction xs as [| x xs IH]; intros w Hp; cbn [flat_map].
  - cbn. rewrite app_nil_r. auto.
  - unfold steps in *. rewrite fold_left_app.
    destruct (one_exchange w x Hp) as [P1 T1]. unfold steps in P1, T1.
    destruct (IH _ P1) as [P2 T2].
    split; [exact P2 |]. rewrite T2, T1. now rewrite app_assoc.
Qed.

(** C2, as the code has it.  From a world with no handler parked:
    over any run, the events after a given point add messages at the
    end of the transcript as it stood, as long as none of them is
    [EndConversation]; and when every call is settled before the next
    one is made, the transcript grows by the turns of each exchange in
    the order of the calls, the assistant turn right after the user
    turn of its exchange and no assistant turn for an exchange that
    failed. *)
Theorem transcript_append_only_and_in_turn (w : World) :
  pending w = [] ->
  (forall es1 es2,
     Forall (fun e => e <> EndConversation) es2 ->
     exists more,
       messages (conversation (steps w (es1 ++ es2)))
       = (messages (conversation (steps w es1)) ++ more)%list) /\
  (forall xs,
     transcript (steps w (flat_map events_of xs))
     = (transcript w ++ flat_map turns_of xs)%list).
Proof.
  intros Hp. split.
  - intros es1 es2 F. unfold steps. rewrite fold_left_app.
    apply steps_append; [| exact F].
    apply parked_append_steps. unfold parked_append. rewrite Hp.
    constructor.
  - intros xs. now apply exchanges_in_turn.
Qed.

End Exchanges.

(* ===================================================================== *)
(** ** The gateway: one request, the status check, the decoded body       *)
(* ===================================================================== *)

Lemma append_nil_r (s : string) : s ++ EmptyString = s.
Proof. induction s as [| c s IH]; cbn; congruence. Qed.

Lemma ok_2xx {B} (r : Response B) :
  ok r = true <-> (200 <= status r <= 299)%Z.
Proof.
  unfold ok. rewrite andb_true_iff, !Z.leb_le. tauto.
Qed.

Lemma not_ok_2xx {B} (r : Response B) :
  ok r = false <-> ~ (200 <= status r <= 299)%Z.
Proof.
  rewrite <- ok_2xx. destruct (ok r); split; congruence.
Qed.

Ltac status_check :=
  unfold checks_status, reply, with_body, as_json, as_blob;
  split; [round_trip |]; split; [reflexivity |]; split;
  intros r H; [apply not_ok_2xx in H | apply ok_2xx in H];
  cbn; rewrite H; cbn; try reflexivity;
  unfold response_json; destruct (body_json r); reflexivity.

Ltac plain_status_check :=
  unfold checks_status, reply, as_json, as_blob;
  split; [round_trip |]; split; [reflexivity |]; split;
  intros r H; [apply not_ok_2xx in H | apply ok_2xx in H];
  cbn; rewrite H; cbn; rewrite ?append_nil_r; try reflexivity;
  unfold response_json; destruct (body_json r); reflexivity.

Section Gateway.
Variable env : option string.

Lemma v2_makeRequest_checks {B} endpoint options :
  checks_status "API request failed: " with_body as_json
    (ApiService_v2.makeRequest (B := B) env endpoint options).
Proof. status_check. Qed.

Lemma v1_makeRequest_checks {B} endpoint options :
  checks_status "API request failed: " (fun _ => EmptyString) as_json
    (ApiService_v1.makeRequest (B := B) env endpoint options).
Proof. plain_status_check. Qed.
End Gateway.

Section GatewayMethods.
Variable env : option string.

(** The fuller revision posts a clip to the combined endpoint, once,
    and returns the decoded [{text, audio_url?}]. *)
Lemma v2_sendAudioMessage_combined_endpoint (clip : Blob) :
  first_request (ApiService_v2.sendAudioMessage env clip)
  = Some (base_url env ++ "/api/audio-chat",
          {| method := Some "POST"; headers := None;
             body := Some (FormData [("audio", clip, "recording.webm")]) |}) /\
  checks_status "Audio processing failed: " with_body as_json
    (ApiService_v2.sendAudioMessage env clip).
Proof. split; [reflexivity | status_check]. Qed.

(** C9, as the code has it.  Every method of the service issues one
    request and settles on its outcome, whatever it is: nothing is
    retried.  A response outside 200-299 is thrown as an [Error] whose
    message carries the status text and, in the fuller revision, the
    body as text after it.  A response inside 200-299 gives the result
    of decoding its body ([response.json()], or [response.blob()] for
    text-to-speech): the call throws only if the decoding does. *)
Theorem gateway_checks_status_once :
  (forall t, checks_status "API request failed: " with_body as_json
               (ApiService_v2.sendTextMessage env t)) /\
  (forall b, checks_status "Audio processing failed: " with_body as_json
               (ApiService_v2.sendAudioMessage env b)) /\
  (forall B b, checks_status "Speech-to-text failed: " with_body as_json
                 (ApiService_v2.speechToText (B := B) env b)) /\
  (forall B t, checks_status "Text-to-speech failed: " with_body as_blob
                 (ApiService_v2.textToSpeech (B := B) env t)) /\
  (forall Any, checks_status "API request failed: " with_body as_json
                 (ApiService_v2.getConversationHistory (Any := Any) env)) /\
  (forall B, checks_status "API request failed: " with_body as_json
               (ApiService_v2.clearConversationHistory (B := B) env)) /\
  (forall Any, checks_status "API request failed: " with_body as_json
                 (ApiService_v2.getHealthStatus (Any := Any) env)) /\
  (forall Any, checks_status "API request failed: " with_body as_json
                 (ApiService_v2.getApiStatus (Any := Any) env)) /\
  (forall t, exists detail,
     checks_status "API request failed: " detail as_json
       (ApiService_v1.sendTextMessage env t)) /\
  (forall b, exists detail,
     checks_status "Audio processing failed: " detail as_json
       (ApiService_v1.sendAudioMessage env b)) /\
  (forall Any, exists detail,
     checks_status "API request failed: " detail as_json
       (ApiService_v1.getConversationHistory (Any := Any) env)) /\
  (forall B t, exists detail,
     checks_status "Text-to-speech failed: " detail as_blob
       (ApiService_v1.textToSpeech (B := B) env t)).
Proof.
  repeat match goal with |- _ /\ _ => split end; intros;
    first [ status_check | exists (fun _ => EmptyString); plain_status_check ].
Qed.
End GatewayMethods.

(* ===================================================================== *)
(** ** Concrete runs                                                      *)
(* ===================================================================== *)

(** C1, refuted as stated.  With a text exchange outstanding
    ([isLoading] true), a second [handleSendMessage] is not rejected: the
    messages after the call differ from the messages before it, the
    transcript having gained the user turn "b". *)
Lemma busy_submit_not_rejected :
  let w := session [StartConversation; SendMessage (js "a")] in
  let w' := step (api := the_api) w (SendMessage (js "b")) in
  isLoading (conversation w) = true /\
  messages (conversation w') <> messages (conversation w) /\
  transcript w' = [(user, js "a"); (user, js "b")].
Proof. cbv zeta. split; [reflexivity |]. split; [discriminate | reflexivity]. Qed.

Lemma calls_while_loading_witness :
  let w := session [StartConversation; SendMessage (js "a")] in
  isLoading (conversation w) = true /\
  messages (conversation (step (api := the_api) w (ProcessRecording clip)))
  = messages (conversation w) /\
  transcript (step (api := the_api) w (SendMessage (js "b")))
  = [(user, js "a"); (user, js "b")] /\
  error (conversation (step (api := the_api) w (SendMessage (js "b")))) = None.
Proof.
  cbv zeta. split; [reflexivity |].
  destruct (@calls_while_loading the_api
              (session [StartConversation; SendMessage (js "a")]) eq_refl)
    as (V & T).
  destruct (V clip) as (M & _).
  destruct (T (js "b") eq_refl) as (U & _ & E & _).
  split; [exact M |]. split; [exact U | exact E].
Defined.

(** C2, refuted as stated.  Two text calls made before either is
    settled, both then answered: the assistant turn "A" does not come
    right after the user turn "a" that triggered it, and the assistant
    turn "B" comes right after another assistant turn. *)
Lemma overlapping_replies_out_of_turn :
  transcript
    (session [StartConversation; SendMessage (js "a"); SendMessage (js "b");
           Settle 0 (ok_json (mkChatResponse (js "A") None));
           Settle 0 (ok_json (mkChatResponse (js "B") None))])
  = [(user, js "a"); (user, js "b"); (assistant, js "A"); (assistant, js "B")].
Proof. reflexivity. Qed.

Lemma transcript_append_only_and_in_turn_witness :
  pending mounted = [] /\
  transcript
    (session (flat_map (events_of)
             [TextExchange (js "quote GBP/USD") (ok_json (mkChatResponse (js "1.27") None));
              TextExchange (js "x") unavailable;
              VoiceExchange clip
                (ok_json (mkChatResponse (js "noted") (Some "http://host/r1")))]))
  = [(user, js "quote GBP/USD"); (assistant, js "1.27");
     (user, js "x");
     (user, js "[Voice Message]"); (assistant, js "noted")].
Proof.
  split; [reflexivity |].
  exact (proj2 (@transcript_append_only_and_in_turn the_api mounted eq_refl)
           [TextExchange (js "quote GBP/USD") (ok_json (mkChatResponse (js "1.27") None));
            TextExchange (js "x") unavailable;
            VoiceExchange clip
              (ok_json (mkChatResponse (js "noted") (Some "http://host/r1")))]).
Defined.

(** C3, refuted as stated.  After a failed exchange [error] is set, and
    [handleEndConversation] leaves it set; called with an exchange
    outstanding it leaves [isLoading] true. *)
Lemma end_conversation_keeps_error :
  let w := session [StartConversation; SendMessage (js "a"); Settle 0 unavailable] in
  let w' := session [StartConversation; SendMessage (js "a")] in
  error (conversation w) <> None /\
  error (conversation (step (api := the_api) w EndConversation))
    = error (conversation w) /\
  isLoading (conversation (step (api := the_api) w' EndConversation)) = true.
Proof. cbv zeta. split; [discriminate |]. split; reflexivity. Qed.

(** C4, refuted as stated.  The conversation is ended with a text
    exchange outstanding; the reply arrives afterwards and its assistant
    turn is appended to the emptied transcript. *)
Lemma late_reply_lands_in_cleared_transcript :
  let w := session [StartConversation; SendMessage (js "a"); EndConversation] in
  transcript w = [] /\
  length (pending w) = 1 /\
  transcript (step (api := the_api) w
                (Settle 0 (ok_json (mkChatResponse (js "late") None))))
    = [(assistant, js "late")].
Proof. cbv zeta. repeat split; reflexivity. Qed.

Lemma late_reply_applied_after_end_witness :
  transcript
    (session [SendMessage (js "a"); EndConversation;
           Settle 0 (ok_json (mkChatResponse (js "late") None))])
  = [(assistant, js "late")].
Proof.
  apply (proj1 (@late_reply_applied_after_end the_api mounted
                  (ok_json (mkChatResponse (js "late") None))
                  (mkChatResponse (js "late") None)) (js "a"));
    reflexivity.
Defined.

Lemma failed_text_exchange_keeps_user_turn_witness :
  let w := session [SendMessage (js "x"); Settle 0 unavailable] in
  transcript w = [(user, js "x")] /\
  isLoading (conversation w) = false /\
  error (conversation w)
    = Some "API request failed: Service Unavailable - upstream timed out".
Proof.
  destruct (@failed_text_exchange_keeps_user_turn the_api mounted (js "x")
              unavailable
              (Error "API request failed: Service Unavailable - upstream timed out")
              eq_refl eq_refl)
    as (_ & _ & T & L & E & _).
  cbv zeta. repeat split; assumption.
Defined.

(** C6, refuted as stated.  [handleProcessRecording] has appended no
    placeholder when the request is issued, and after the request failed
    the transcript holds no user turn at all. *)
Lemma failed_voice_exchange_leaves_no_turn :
  let w1 := session [StartConversation; ProcessRecording clip] in
  transcript w1 = [] /\
  length (network w1) = 1 /\
  transcript (step (api := the_api) w1 (Settle 0 unavailable)) = [].
Proof. cbv zeta. repeat split; reflexivity. Qed.

Lemma voice_turns_appended_on_reply_witness :
  let w1 := session [ProcessRecording clip] in
  error (conversation w1) = None /\
  length (network w1) = 1 /\
  transcript (session [ProcessRecording clip; Settle 0 unavailable]) = [].
Proof.
  destruct (@voice_turns_appended_on_reply the_api mounted clip unavailable)
    as (_ & _ & _ & E & _ & N & _ & _ & _ & _ & F).
  destruct (F (Error "Audio processing failed: Service Unavailable - upstream timed out")
              eq_refl) as (T & _).
  cbv zeta. split; [exact E |].
  split; [exact (f_equal (@length _) (N _ eq_refl)) | exact T].
Defined.

(** C7, refuted as stated.  The reply carries an [audio_url], the empty
    string; the guard takes it for absent and the audio element gets no
    [play()]. *)
Lemma empty_audio_url_not_played :
  let r := mkChatResponse (js "noted") (Some EmptyString) in
  let w := session [StartConversation; ProcessRecording clip;
                 Settle 0 (ok_json r)] in
  audio_url r <> None /\
  transcript w = [(user, js "[Voice Message]"); (assistant, js "noted")] /\
  play_calls w = [].
Proof. cbv zeta. split; [discriminate |]. split; reflexivity. Qed.

Lemma voice_reply_appended_and_played_witness :
  let w := session [ProcessRecording clip;
                 Settle 0 (ok_json (mkChatResponse (js "noted") (Some "http://host/r1")))] in
  transcript w = [(user, js "[Voice Message]"); (assistant, js "noted")] /\
  play_calls w = ["http://host/r1"].
Proof.
  destruct (@voice_reply_appended_and_played the_api mounted clip
              (ok_json (mkChatResponse (js "noted") (Some "http://host/r1")))
              (mkChatResponse (js "noted") (Some "http://host/r1"))
              (mkAudio EmptyString []) eq_refl eq_refl)
    as (T & _ & P & _).
  cbv zeta. split; [exact T |].
  apply (P "http://host/r1" eq_refl). discriminate.
Defined.

(** C8, the defect.  [sendAudioMessage] of [services/api.ts] posts the
    clip to the transcription endpoint [/api/speech-to-text], not to the
    combined endpoint [/api/audio-chat] that the fuller revision of the
    same method uses. *)
Theorem v1_sendAudioMessage_endpoint :
  first_request (ApiService_v1.sendAudioMessage None clip)
  = Some ("http://localhost:8000/api/speech-to-text",
          {| method := Some "POST"; headers := None;
             body := Some (FormData [("audio", clip, "recording.webm")]) |}) /\
  first_request (ApiService_v2.sendAudioMessage None clip)
  = Some ("http://localhost:8000/api/audio-chat",
          {| method := Some "POST"; headers := None;
             body := Some (FormData [("audio", clip, "recording.webm")]) |}).
Proof. split; reflexivity. Qed.

(** C9, refuted as stated.  A response with status 200 whose body does
    not parse: [response.json()] rejects and the call throws. *)
Lemma ok_response_can_raise :
  let r := {| status := 200; statusText := "OK"; body_text := "<html>";
              body_json := inl (Error "Unexpected token < in JSON at position 0");
              body_blob := mkBlob [] "text/html" |} in
  ok r = true /\
  reply (ApiService_v2.sendTextMessage None (js "quote GBP/USD")) (Responded r)
  = Some (inl (Error "Unexpected token < in JSON at position 0")).
Proof. cbv zeta. split; reflexivity. Qed.

Lemma gateway_checks_status_once_witness :
  reply (ApiService_v2.sendTextMessage None (js "quote GBP/USD")) unavailable
  = Some (inl (Error "API request failed: Service Unavailable - upstream timed out")).
Proof.
  destruct (gateway_checks_status_once None) as (H & _).
  destruct (H (js "quote GBP/USD")) as (_ & _ & Bad & _).
  apply (Bad {| status := 503; statusText := "Service Unavailable";
                body_text := "upstream timed out";
                body_json := inl (Error "Unexpected token");
                body_blob := mkBlob [] EmptyString |}).
  cbn. lia.
Defined.

Lemma blank_content_is_noop_witness :
  let blank := [32; 9; 10; 160; 5760; 8192; 8202; 8232; 8233; 8239; 8287;
                12288; 65279]%N in
  all_whitespace blank = true /\
  step (api := the_api) mounted (SendMessage blank) = mounted /\
  run (Conversation.handleSendMessage blank) mounted = mounted.
Proof.
  cbv zeta. split; [reflexivity |].
  apply (@blank_content_is_noop the_api mounted
           [32; 9; 10; 160; 5760; 8192; 8202; 8232; 8233; 8239; 8287;
            12288; 65279]%N).
  reflexivity.
Defined.

(* ===================================================================== *)
(** ** The handlers against the state machine                             *)
(* ===================================================================== *)

Lemma sound_frame r w :
  conversation (sound r w) = conversation w /\
  pending (sound r w) = pending w /\
  network (sound r w) = network w /\
  clock (sound r w) = clock w /\
  audioBlob (sound r w) = audioBlob w /\
  isConversationActive (sound r w) = isConversationActive w.
Proof.
  unfold sound. destruct (audio_url r) as [u |]; [destruct (truthy u) |];
    [destruct (audioPlayerRef w) | |]; repeat split; reflexivity.
Qed.

Lemma complete_frame x w :
  pending (complete x w) = pending w /\
  network (complete x w) = network w /\
  clock (complete x w) = clock w /\
  audioBlob (complete x w) = audioBlob w /\
  isConversationActive (complete x w) = isConversationActive w /\
  isLoading (conversation (complete x w)) = false.
Proof.
  destruct x as [r | r | e]; cbn [complete];
    try (match goal with |- context [sound ?r ?v] =>
           destruct (sound_frame r v) as (C & P & N & K & B & A);
           rewrite C, P, N, K, B, A end);
    repeat split; reflexivity.
Qed.

Section StateMachine.
Context {api : ApiService}.

Ltac guard_cases r w :=
  unfold sound;
  let u := fresh "u" in let A := fresh "A" in
  destruct (audio_url r) as [u |]; cbn;
  [destruct (truthy u); cbn; [destruct (audioPlayerRef w) eqn:A; cbn |] |];
  unfold with_audioPlayerRef, with_conversation; cbn; rewrite ?A; cbn;
  reflexivity.

(** A text message that is not blank: the user turn, one request, one
    handler parked, which acts as the completion its outcome calls for. *)
Lemma text_call_shape w c :
  truthy_text (trim c) = true ->
  exists url init parked,
    first_request (sendTextMessage c) = Some (url, init) /\
    run (handleSendMessage c) w
    = suspend url init parked
        (calling [mkMessage user c (Some (clock w))] w) /\
    forall o w',
      run (parked o) w'
      = complete (completion_of TextReply (reply (sendTextMessage c) o)) w'.
Proof.
  intros Hc.
  destruct (sendTextMessage_round_trip c) as (url & init & k & E & S).
  unfold handleSendMessage, reply. rewrite Hc, E. cbn.
  do 3 eexists. split; [reflexivity |]. split; [reflexivity |].
  intros o w'. cbn.
  destruct (settled_inv _ (S o)) as [[v ->] | [e ->]]; cbn;
    [guard_cases v w' | reflexivity].
Qed.

Lemma voice_call_shape w b :
  exists url init parked,
    first_request (sendAudioMessage b) = Some (url, init) /\
    run (handleProcessRecording b) w = suspend url init parked (calling [] w) /\
    forall o w',
      run (parked o) w'
      = complete (completion_of VoiceReply (reply (sendAudioMessage b) o)) w'.
Proof.
  destruct (sendAudioMessage_round_trip b) as (url & init & k & E & S).
  unfold handleProcessRecording, reply. rewrite E. cbn.
  do 3 eexists. split; [reflexivity |]. split.
  - unfold calling. now rewrite app_nil_r.
  - intros o w'. cbn.
    destruct (settled_inv _ (S o)) as [[v ->] | [e ->]]; cbn;
      [guard_cases v w' | reflexivity].
Qed.

(** Every step of the component is a transition, with the requests
    expected of the event. *)
Lemma step_transition w e :
  parked_known w -> transition w (requests_of e w) (step w e).
Proof.
  intros I. destruct e as [| | c | b | clip | staged disabled | i o |]; cbn [step requests_of].
  - apply t_activate.
  - apply t_finish.
  - unfold request_of_text. destruct (truthy_text (trim c)) eqn:Hc.
    + destruct (text_call_shape w c Hc) as (url & init & parked & F & R & A).
      rewrite R, F.
      exact (@t_call w url init parked _ (audioBlob w)
               (fun o => ex_intro _ _ (A o))
               (or_intror (ex_intro _ c eq_refl)) (or_introl eq_refl)).
    + unfold handleSendMessage. rewrite Hc. apply t_idle.
  - unfold request_of_voice.
    destruct (voice_call_shape w b) as (url & init & parked & F & R & A).
    rewrite R, F.
    exact (@t_call w url init parked [] (audioBlob w)
             (fun o => ex_intro _ _ (A o))
             (or_introl eq_refl) (or_introl eq_refl)).
  - apply t_stage.
  - destruct disabled; [apply t_idle |].
    unfold recorder_handleProcessRecording, request_of_voice.
    destruct staged as [b |]; [| apply t_idle].
    destruct (voice_call_shape w b) as (url & init & parked & F & R & A).
    rewrite R, F.
    exact (@t_call w url init parked [] None
             (fun o => ex_intro _ _ (A o))
             (or_introl eq_refl) (or_intror eq_refl)).
  - destruct (nth_error (pending w) i) as [parked |] eqn:N; [| apply t_idle].
    pose proof (proj1 (Forall_forall _ _) I parked (nth_error_In _ _ N) o)
      as [x Hx].
    rewrite Hx. now apply t_completion with (parked := parked).
  - apply t_tick.
Qed.

Lemma transition_known w q w' :
  parked_known w -> transition w q w' -> parked_known w'.
Proof.
  unfold parked_known. intros I T.
  destruct T as [| | | url init parked more staged A _ _ | | i parked x N |];
    cbn; try exact I.
  - apply Forall_app. split; [exact I | constructor; [exact A | constructor]].
  - destruct (complete_frame x (with_pending (remove_nth i (pending w)) w))
      as (P & _).
    rewrite P. cbn. now apply Forall_remove_nth.
Qed.

(** What every transition keeps is kept along every run. *)
Lemma run_invariant (P : World -> Prop) :
  (forall w q w', parked_known w -> P w -> transition w q w' -> P w') ->
  forall es w, parked_known w -> P w ->
    P (steps w es) /\ parked_known (steps w es).
Proof.
  intros Keep. unfold steps.
  induction es as [| e es IH]; cbn; intros w I H; [auto |].
  pose proof (@step_transition w e I) as T.
  apply IH; [eapply transition_known | eapply Keep]; eassumption.
Qed.

Lemma nothing_parked_known w : pending w = [] -> parked_known w.
Proof. unfold parked_known. intros ->. constructor. Qed.

End StateMachine.

(* ===================================================================== *)
(** ** Whole exchanges                                                    *)
(* ===================================================================== *)

Section WholeExchanges.
Context {api : ApiService}.

(** A text call settled at once: the call, the request, the completion. *)
Lemma text_exchange_world w c o :
  truthy_text (trim c) = true ->
  exists q,
    request_of_text c = [q] /\
    steps w [SendMessage c; Settle (length (pending w)) o]
    = complete (completion_of TextReply (reply (sendTextMessage c) o))
        (with_request q (calling [mkMessage user c (Some (clock w))] w)).
Proof.
  intros Hc.
  destruct (text_call_shape w c Hc) as (url & init & parked & F & R & A).
  exists (url, init). unfold request_of_text. rewrite Hc, F.
  split; [reflexivity |].
  unfold steps. cbn [fold_left step]. rewrite R. cbn [pending suspend].
  cbn. rewrite nth_error_snoc, remove_nth_snoc. apply A.
Qed.

Lemma voice_exchange_world w b o :
  exists q,
    request_of_voice b = [q] /\
    steps w [ProcessRecording b; Settle (length (pending w)) o]
    = complete (completion_of VoiceReply (reply (sendAudioMessage b) o))
        (with_request q (calling [] w)).
Proof.
  destruct (voice_call_shape w b) as (url & init & parked & F & R & A).
  exists (url, init). unfold request_of_voice. rewrite F.
  split; [reflexivity |].
  unfold steps. cbn [fold_left step]. rewrite R. cbn [pending suspend].
  cbn. rewrite nth_error_snoc, remove_nth_snoc. apply A.
Qed.

(** X1.  A text message that is not blank, answered with the reply [r]:
    the transcript gains the user turn, stamped with the time of the
    call, and the assistant turn with [r]'s text; [isLoading] goes up at
    the call and down at the reply; [error] is cleared; the network saw
    exactly the one request of the service; no handler is left parked by
    the exchange; the audio element plays [r]'s [audio_url] if that is a
    non-empty string and the element is mounted, and is left alone
    otherwise. *)
Theorem text_exchange_appends_reply
    (w : World) (c : jsstring) (o : FetchOutcome ChatResponse) (r : ChatResponse) :
  all_whitespace c = false ->
  reply (sendTextMessage c) o = Some (inr r) ->
  let w1 := step w (SendMessage c) in
  let w2 := steps w [SendMessage c; Settle (length (pending w)) o] in
  messages (conversation w2)
  = (messages (conversation w)
     ++ [mkMessage user c (Some (clock w));
         mkMessage assistant (text r) (Some (clock w))])%list /\
  isLoading (conversation w1) = true /\
  isLoading (conversation w2) = false /\
  error (conversation w2) = None /\
  network w2 = (network w ++ request_of_text c)%list /\
  length (request_of_text c) = 1 /\
  pending w2 = pending w /\
  (forall u a, audio_url r = Some u -> u <> EmptyString ->
     audioPlayerRef w = Some a ->
     audioPlayerRef w2 = Some (mkAudio u (played a ++ [u])%list)) /\
  (audio_url r = None \/ audio_url r = Some EmptyString
   \/ audioPlayerRef w = None ->
   audioPlayerRef w2 = audioPlayerRef w).
Proof.
  intros Hc Hr. apply not_blank in Hc. cbv zeta.
  destruct (text_exchange_world w c o Hc) as (q & Q & W2).
  destruct (text_call_shape w c Hc) as (url & init & parked & _ & R & _).
  rewrite W2, Hr, Q. cbn [step]. rewrite R. clear W2 R.
  unfold complete, completion_of, sound, calling, with_request.
  destruct (audio_url r) as [[| ch u] |]; cbn;
    destruct (audioPlayerRef w) as [a |]; cbn;
    rewrite <- app_assoc; cbn;
    do 7 (split; [reflexivity |]); split;
    try (intros u' a' Hu Hne Ha; congruence);
    try (intros _; reflexivity).
  - intros [H | [H | H]]; discriminate.
Qed.

(** X2.  An error does not outlive the next call.  After a text exchange
    that failed, [error] holds the message; the next call, text or
    voice, clears it at once; and when a second text exchange is made
    and answered, [error] is empty, [isLoading] is false and the
    transcript holds both user turns and the one assistant turn. *)
Theorem error_cleared_by_next_call
    (w : World) (c1 c2 : jsstring) (b : Blob)
    (o1 o2 : FetchOutcome ChatResponse) (e : Thrown) (r : ChatResponse) :
  all_whitespace c1 = false ->
  all_whitespace c2 = false ->
  reply (sendTextMessage c1) o1 = Some (inl e) ->
  reply (sendTextMessage c2) o2 = Some (inr r) ->
  let n := length (pending w) in
  let failed := steps w [SendMessage c1; Settle n o1] in
  let again := steps failed [SendMessage c2; Settle n o2] in
  error (conversation failed) = Some (error_message e) /\
  error (conversation (step failed (SendMessage c2))) = None /\
  error (conversation (step failed (ProcessRecording b))) = None /\
  error (conversation again) = None /\
  isLoading (conversation again) = false /\
  transcript again
  = (transcript w ++ [(user, c1); (user, c2); (assistant, text r)])%list.
Proof.
  intros H1 H2 R1 R2. apply not_blank in H1, H2. cbv zeta.
  destruct (text_exchange_world w c1 o1 H1) as (q1 & _ & W1).
  rewrite W1, R1. cbn [completion_of complete].
  set (failed := with_conversation _ _).
  assert (P : pending failed = pending w) by reflexivity.
  rewrite <- P.
  destruct (text_exchange_world failed c2 o2 H2) as (q2 & _ & W2).
  rewrite W2, R2. cbn [completion_of complete].
  destruct (text_call_shape failed c2 H2) as (u2 & i2 & p2 & _ & S2 & _).
  destruct (voice_call_shape failed b) as (u3 & i3 & p3 & _ & S3 & _).
  cbn [step]. rewrite S2, S3.
  match goal with |- context [sound r ?v] =>
    destruct (sound_frame r v) as (C & _) end.
  unfold transcript. rewrite C. cbn.
  rewrite !map_app, <- !app_assoc. cbn.
  repeat split; reflexivity.
Qed.

(* ------------------------------------------------------------------- *)
(** *** What holds along every run                                      *)
(* ------------------------------------------------------------------- *)

(** X3.  The spinner never shows without an exchange outstanding: along
    every run from a world that is not loading and has no handler
    parked, [isLoading] true means some handler is parked. *)
Theorem loading_means_outstanding (w0 : World) (es : list Event) :
  pending w0 = [] ->
  isLoading (conversation w0) = false ->
  isLoading (conversation (steps w0 es)) = true ->
  pending (steps w0 es) <> [].
Proof.
  intros P0 L0.
  refine (proj1 (@run_invariant api
           (fun w => isLoading (conversation w) = true -> pending w <> [])
           _ es w0 (nothing_parked_known w0 P0) _)).
  - intros w q w' _ H T.
    destruct T as [| | | url init parked more staged _ _ _ | | i parked x N |];
      cbn; try exact H.
    + intros _. destruct (pending w); discriminate.
    + destruct (complete_frame x (with_pending (remove_nth i (pending w)) w))
        as (_ & _ & _ & _ & _ & L).
      rewrite L. discriminate.
  - rewrite L0. discriminate.
Qed.

Lemma call_step w e :
  is_call e = true ->
  exists url init parked more,
    acts_as_completion parked /\
    step w e = suspend url init parked (calling more w).
Proof.
  destruct e as [| | c | b | clip | staged disabled | i o |]; cbn [is_call]; try discriminate.
  - intros Hc.
    destruct (text_call_shape w c Hc) as (url & init & parked & _ & R & A).
    exists url, init, parked. eexists. split; [| exact R].
    intros o. eexists. apply A.
  - intros _.
    destruct (voice_call_shape w b) as (url & init & parked & _ & R & A).
    exists url, init, parked. eexists. split; [| exact R].
    intros o. eexists. apply A.
Qed.

Lemma nth_error_two_parked {A} (l : list A) (a b : A) :
  nth_error ((l ++ [a]) ++ [b])%list (length l) = Some a /\
  nth_error ((l ++ [a]) ++ [b])%list (S (length l)) = Some b /\
  remove_nth (length l) ((l ++ [a]) ++ [b])%list = (l ++ [b])%list /\
  remove_nth (S (length l)) ((l ++ [a]) ++ [b])%list = (l ++ [a])%list.
Proof.
  assert (L : S (length l) = length (l ++ [a])%list)
    by (rewrite length_app; cbn; lia).
  repeat split.
  - rewrite <- app_assoc. rewrite nth_error_app2 by lia.
    now rewrite Nat.sub_diag.
  - rewrite L. apply nth_error_snoc.
  - unfold remove_nth. rewrite <- app_assoc.
    rewrite firstn_app, Nat.sub_diag, firstn_all. cbn [firstn].
    rewrite app_nil_r.
    rewrite skipn_app, skipn_all2 by lia.
    replace (S (length l) - length l) with 1 by lia. reflexivity.
  - rewrite L. apply remove_nth_snoc.
Qed.

(** X4.  [isLoading] is one flag for all exchanges.  Two calls made one
    after the other, whichever handlers they are: as soon as either of
    the two exchanges completes, however it completes, [isLoading] is
    false although the other exchange is still outstanding. *)
Theorem first_completion_lowers_loading
    (w : World) (e1 e2 : Event) (i : nat) (o : FetchOutcome ChatResponse) :
  is_call e1 = true ->
  is_call e2 = true ->
  i = length (pending w) \/ i = S (length (pending w)) ->
  let w2 := steps w [e1; e2] in
  let w3 := step w2 (Settle i o) in
  isLoading (conversation w2) = true /\
  length (pending w2) = S (S (length (pending w))) /\
  isLoading (conversation w3) = false /\
  length (pending w3) = S (length (pending w)).
Proof.
  intros C1 C2 Hi. cbv zeta. unfold steps. cbn [fold_left].
  destruct (call_step w e1 C1) as (u1 & i1 & p1 & m1 & A1 & S1).
  rewrite S1.
  destruct (call_step (suspend u1 i1 p1 (calling m1 w)) e2 C2)
    as (u2 & i2 & p2 & m2 & A2 & S2).
  rewrite S2. cbn [step pending suspend calling with_conversation].
  destruct (nth_error_two_parked (pending w) p1 p2) as (N1 & N2 & R1 & R2).
  split; [reflexivity |].
  split; [rewrite !length_app; cbn; lia |].
  destruct Hi as [-> | ->].
  - rewrite N1, R1. destruct (A1 o) as [x ->].
    match goal with |- context [complete x ?v] =>
      destruct (complete_frame x v) as (P & _ & _ & _ & _ & L) end.
    rewrite P, L. cbn. rewrite length_app. cbn. split; [reflexivity | lia].
  - rewrite N2, R2. destruct (A2 o) as [x ->].
    match goal with |- context [complete x ?v] =>
      destruct (complete_frame x v) as (P & _ & _ & _ & _ & L) end.
    rewrite P, L. cbn. rewrite length_app. cbn. split; [reflexivity | lia].
Qed.

Lemma transition_network w q w' :
  transition w q w' -> network w' = (network w ++ q)%list.
Proof.
  intros T.
  destruct T as [| | | url init parked more staged _ _ _ | | i parked x N |];
    cbn; rewrite ?app_nil_r; try reflexivity.
  destruct (complete_frame x (with_pending (remove_nth i (pending w)) w))
    as (_ & Nw & _).
  exact Nw.
Qed.

Lemma request_of_text_length c :
  length (request_of_text c) = if truthy_text (trim c) then 1 else 0.
Proof.
  unfold request_of_text. destruct (truthy_text (trim c)); [| reflexivity].
  destruct (sendTextMessage_round_trip c) as (url & init & k & -> & _).
  reflexivity.
Qed.

Lemma request_of_voice_length b : length (request_of_voice b) = 1.
Proof.
  unfold request_of_voice.
  destruct (sendAudioMessage_round_trip b) as (url & init & k & -> & _).
  reflexivity.
Qed.

(** X5.  Requests are made at calls and nowhere else.  Along every run
    from a world with no handler parked, an event adds to the network
    exactly the requests of [requests_of]: one for a text message that
    is not blank, for a clip, and for a click on a Send button that was
    rendered enabled and with a clip; none for anything else.  In particular the
    completion of an exchange, whatever its outcome, makes no request:
    the component retries nothing. *)
Theorem requests_follow_calls (w0 : World) (es : list Event) (e : Event) :
  pending w0 = [] ->
  let w := steps w0 es in
  network (step w e) = (network w ++ requests_of e w)%list /\
  (is_call e = true -> length (network (step w e)) = S (length (network w))) /\
  (forall i o, e = Settle i o -> network (step w e) = network w) /\
  (forall c, e = SendMessage c -> all_whitespace c = true ->
     network (step w e) = network w).
Proof.
  intros P0. cbv zeta.
  assert (I : parked_known (steps w0 es)).
  { apply (@run_invariant api (fun _ => True)); auto.
    now apply nothing_parked_known. }
  pose proof (transition_network (@step_transition api _ e I)) as N.
  split; [exact N |]. split; [| split].
  - intros C. rewrite N, length_app.
    destruct e as [| | c | b | clip | staged disabled | i o |]; cbn [is_call] in C;
      try discriminate C; cbn [requests_of].
    + rewrite request_of_text_length, C. lia.
    + rewrite request_of_voice_length. lia.
  - intros i o ->. rewrite N. cbn. now rewrite app_nil_r.
  - intros c -> B. rewrite N. cbn. unfold request_of_text.
    apply blank_iff in B. rewrite B. now rewrite app_nil_r.
Qed.

Lemma chrono_later ms : forall lo hi hi',
  hi <= hi' -> chrono_from lo ms hi -> chrono_from lo ms hi'.
Proof.
  induction ms as [| m ms IH]; cbn; intros lo hi hi' Le H; [lia |].
  destruct (timestamp m); [| contradiction].
  destruct H as [H1 H2]. split; [exact H1 | eapply IH; eassumption].
Qed.

Lemma chrono_snoc ms : forall lo hi m,
  timestamp m = Some hi ->
  chrono_from lo ms hi -> chrono_from lo (ms ++ [m])%list hi.
Proof.
  induction ms as [| a ms IH]; cbn; intros lo hi m Hm H.
  - rewrite Hm. split; [exact H | lia].
  - destruct (timestamp a); [| contradiction].
    destruct H as [H1 H2]. split; [exact H1 | now apply IH].
Qed.

Lemma complete_chronological x w :
  chronological w -> chronological (complete x w).
Proof.
  unfold chronological. intros H.
  destruct x as [r | r | e]; cbn [complete];
    try (match goal with |- context [sound ?r ?v] =>
           destruct (sound_frame r v) as (C & _ & _ & K & _);
           rewrite C, K end);
    cbn.
  - now apply chrono_snoc.
  - change [mkMessage user (js "[Voice Message]") (Some (clock w));
            mkMessage assistant (text r) (Some (clock w))]
      with ([mkMessage user (js "[Voice Message]") (Some (clock w))]
            ++ [mkMessage assistant (text r) (Some (clock w))])%list.
    rewrite app_assoc. apply chrono_snoc; [reflexivity |].
    now apply chrono_snoc.
  - exact H.
Qed.

(** X6.  The transcript is in the order of its time stamps.  With a
    clock that does not run backwards, along every run from a world
    with no handler parked and a transcript in order: every message
    carries a time stamp, the stamps never decrease from one message to
    the next, and none is later than the current time. *)
Theorem transcript_stays_chronological (w0 : World) (es : list Event) :
  pending w0 = [] ->
  chronological w0 ->
  chronological (steps w0 es).
Proof.
  intros P0 C0.
  refine (proj1 (@run_invariant api chronological _ es w0
                   (nothing_parked_known w0 P0) C0)).
  intros w q w' _ H T.
  destruct T as [| | | url init parked more staged _ M _ | | i parked x N |].
  - exact H.
  - exact H.
  - unfold chronological. cbn. lia.
  - unfold chronological in *. cbn.
    destruct M as [-> | [c ->]]; [now rewrite app_nil_r |].
    now apply chrono_snoc.
  - exact H.
  - apply complete_chronological. exact H.
  - unfold chronological in *. cbn.
    apply chrono_later with (hi := clock w); [lia | exact H].
Qed.

Lemma sound_play_calls r w :
  exists more,
    play_calls (sound r w) = (play_calls w ++ more)%list /\
    Forall (fun u => u <> EmptyString) more.
Proof.
  unfold sound, play_calls.
  destruct (audio_url r) as [[| ch u] |]; cbn;
    try (exists []; rewrite app_nil_r; split; [reflexivity | constructor]).
  destruct (audioPlayerRef w) as [a |] eqn:A; cbn; rewrite ?A.
  - eexists. split; [reflexivity |].
    constructor; [discriminate | constructor].
  - exists []. split; [reflexivity | constructor].
Qed.

Lemma transition_play_calls w q w' :
  transition w q w' ->
  exists more,
    play_calls w' = (play_calls w ++ more)%list /\
    Forall (fun u => u <> EmptyString) more.
Proof.
  assert (Same : exists more,
             play_calls w = (play_calls w ++ more)%list /\
             Forall (fun u => u <> EmptyString) more)
    by (exists []; rewrite app_nil_r; split; [reflexivity | constructor]).
  intros T.
  destruct T as [| | | url init parked more staged _ _ _ | | i parked x N |];
    try exact Same.
  destruct x as [r | r | e]; cbn [complete]; [| | exact Same];
    match goal with |- context [sound r ?v] =>
      destruct (sound_play_calls r v) as (more & E & F) end;
    exists more; (split; [exact E | exact F]).
Qed.

(** X7.  What the audio element is asked to play.  Along every run from
    a world with no handler parked, the list of [play()] calls only
    grows at its end, and no call added has the empty string as its
    source. *)
Theorem play_calls_grow_and_are_not_empty (w0 : World) (es : list Event) :
  pending w0 = [] ->
  exists more,
    play_calls (steps w0 es) = (play_calls w0 ++ more)%list /\
    Forall (fun u => u <> EmptyString) more.
Proof.
  intros P0.
  refine (proj1 (@run_invariant api
           (fun w => exists more,
              play_calls w = (play_calls w0 ++ more)%list /\
              Forall (fun u => u <> EmptyString) more)
           _ es w0 (nothing_parked_known w0 P0) _)).
  - intros w q w' _ (m1 & E1 & F1) T.
    destruct (transition_play_calls T) as (m2 & E2 & F2).
    exists (m1 ++ m2)%list. split.
    + rewrite E2, E1. now rewrite app_assoc.
    + apply Forall_app. split; assumption.
  - exists []. rewrite app_nil_r. split; [reflexivity | constructor].
Qed.

End WholeExchanges.

(* ===================================================================== *)
(** ** The service: how requests are built, how the revisions differ      *)
(* ===================================================================== *)

Lemma append_cancel_l (s a b : string) : s ++ a = s ++ b -> a = b.
Proof.
  induction s as [| c s IH]; cbn; intros E; [exact E |].
  injection E as E. auto.
Qed.

Section ServiceRequests.
Variable env : option string.

(** X9.  The request [makeRequest] builds, in both revisions: the base
    URL followed by the endpoint; the method and the body of the
    options, as they are; the header [Content-Type: application/json]
    when the options carry no headers, and the headers of the options,
    in place of it, when they carry some. *)
Theorem makeRequest_request (B : Type) (endpoint : string) (options : RequestInit) :
  let expected :=
    Some (base_url env ++ endpoint,
          {| method := method options;
             headers := match headers options with
                        | Some h => Some h
                        | None => Some [("Content-Type", "application/json")]
                        end;
             body := body options |}) in
  first_request (ApiService_v1.makeRequest (B := B) env endpoint options)
  = expected /\
  first_request (ApiService_v2.makeRequest (B := B) env endpoint options)
  = expected.
Proof.
  destruct options as [[m |] [h |] [b |]]; split; reflexivity.
Qed.

(** X10.  The two revisions of the service differ in the endpoint a clip
    is posted to and in the message of a failed status check, and in
    nothing else the component can see: they build the same request for
    a text message, and for a text message or a clip they hand the
    caller the same result whenever the [fetch] is rejected or the
    response is inside 200-299. *)
Theorem revisions_agree_on_success
    (t : jsstring) (b : Blob) (o : FetchOutcome ChatResponse) :
  match o with
  | Rejected _ => True
  | Responded r => (200 <= status r <= 299)%Z
  end ->
  first_request (ApiService_v1.sendTextMessage env t)
  = first_request (ApiService_v2.sendTextMessage env t) /\
  reply (ApiService_v1.sendTextMessage env t) o
  = reply (ApiService_v2.sendTextMessage env t) o /\
  reply (ApiService_v1.sendAudioMessage env b) o
  = reply (ApiService_v2.sendAudioMessage env b) o /\
  first_request (ApiService_v1.sendAudioMessage env b)
  <> first_request (ApiService_v2.sendAudioMessage env b).
Proof.
  intros H. split; [reflexivity |].
  assert (D : first_request (ApiService_v1.sendAudioMessage env b)
              <> first_request (ApiService_v2.sendAudioMessage env b)).
  { cbn. intros E. injection E as E.
    apply append_cancel_l in E. discriminate E. }
  destruct o as [e | r]; unfold reply; cbn.
  - repeat split; [exact D].
  - apply ok_2xx in H. rewrite H. cbn. repeat split; exact D.
Qed.

End ServiceRequests.

(* ===================================================================== *)
(** ** The component wired to the service                                 *)
(* ===================================================================== *)

Section Wired.
Variable env : option string.

(** X11.  What the user is shown when a request fails.  For a text
    message that is not blank, or a clip, whose response is outside
    200-299, [error] is the prefix of the method, the status text and,
    with the later revision of the service, the body after it; when
    the [fetch] itself is rejected, for a text message or a clip and
    with either revision, [error] is the message of what was thrown if
    that is an [Error], and "An error occurred" if it is not. *)
Theorem failed_request_message
    (w : World) (c : jsstring) (b : Blob) (r : Response ChatResponse) :
  all_whitespace c = false ->
  ~ (200 <= status r <= 299)%Z ->
  let n := length (pending w) in
  let shown (api : ApiService) (e : Event) (o : FetchOutcome ChatResponse) :=
    error (conversation (steps (api := api) w [e; Settle n o])) in
  shown (api_v2 env) (SendMessage c) (Responded r)
  = Some ("API request failed: " ++ statusText r ++ " - " ++ body_text r) /\
  shown (api_v1 env) (SendMessage c) (Responded r)
  = Some ("API request failed: " ++ statusText r) /\
  shown (api_v2 env) (ProcessRecording b) (Responded r)
  = Some ("Audio processing failed: " ++ statusText r ++ " - " ++ body_text r) /\
  shown (api_v1 env) (ProcessRecording b) (Responded r)
  = Some ("Audio processing failed: " ++ statusText r) /\
  (forall (api : ApiService) (e : Event) (thrown : Thrown),
     api = api_v1 env \/ api = api_v2 env ->
     e = SendMessage c \/ e = ProcessRecording b ->
     shown api e (Rejected thrown)
     = Some (match thrown with
             | Error m => m
             | NotAnError => "An error occurred"
             end)).
Proof.
  intros Hc Hr. apply not_blank in Hc. apply not_ok_2xx in Hr. cbv zeta.
  pose proof (fun a o => @text_exchange_world a w c o Hc) as T.
  pose proof (fun a o => @voice_exchange_world a w b o) as V.
  repeat split.
  - destruct (T (api_v2 env) (Responded r)) as (q & _ & ->).
    unfold reply. cbn. rewrite Hr. reflexivity.
  - destruct (T (api_v1 env) (Responded r)) as (q & _ & ->).
    unfold reply. cbn. rewrite Hr. reflexivity.
  - destruct (V (api_v2 env) (Responded r)) as (q & _ & ->).
    unfold reply. cbn. rewrite Hr. reflexivity.
  - destruct (V (api_v1 env) (Responded r)) as (q & _ & ->).
    unfold reply. cbn. rewrite Hr. reflexivity.
  - intros api e thrown [-> | ->] [-> | ->].
    + destruct (T (api_v1 env) (Rejected thrown)) as (q & _ & ->).
      destruct thrown; reflexivity.
    + destruct (V (api_v1 env) (Rejected thrown)) as (q & _ & ->).
      destruct thrown; reflexivity.
    + destruct (T (api_v2 env) (Rejected thrown)) as (q & _ & ->).
      destruct thrown; reflexivity.
    + destruct (V (api_v2 env) (Rejected thrown)) as (q & _ & ->).
      destruct thrown; reflexivity.
Qed.

Lemma requests_of_v2 e w :
  Forall (component_request env) (requests_of (api := api_v2 env) e w).
Proof.
  assert (Text : forall c,
            Forall (component_request env)
                   (request_of_text (api := api_v2 env) c)).
  { intros c. unfold request_of_text. destruct (truthy_text (trim c)); cbn;
      constructor; [| constructor].
    left. exists c. reflexivity. }
  assert (Voice : forall b,
            Forall (component_request env)
                   (request_of_voice (api := api_v2 env) b)).
  { intros b. unfold request_of_voice. cbn. constructor; [| constructor].
    right. exists b. reflexivity. }
  destruct e as [| | c | b | clip | staged disabled | i o |]; cbn [requests_of];
    try apply Text; try apply Voice; try apply Forall_nil.
  destruct disabled; [apply Forall_nil |].
  destruct staged; [apply Voice | apply Forall_nil].
Qed.

Lemma network_of_v2 es : forall w,
  parked_known w ->
  Forall (component_request env) (network w) ->
  Forall (component_request env) (network (steps (api := api_v2 env) w es)).
Proof.
  unfold steps. induction es as [| e es IH]; cbn; intros w I H; [exact H |].
  pose proof (@step_transition (api_v2 env) w e I) as T.
  apply IH; [eapply transition_known; eassumption |].
  rewrite (transition_network T). apply Forall_app.
  split; [exact H | apply requests_of_v2].
Qed.

(** X12.  The component talks to two endpoints only.  Wired to the later
    revision of the service, along every run from a world with no
    handler parked and nothing on the network, every request made is
    either [POST <base>/api/chat] with the JSON of [{text}] and the
    header [Content-Type: application/json], or [POST
    <base>/api/audio-chat] with the clip as the form field [audio],
    named [recording.webm], and no headers of its own. *)
Theorem component_requests_v2 (w0 : World) (es : list Event) :
  pending w0 = [] ->
  network w0 = [] ->
  Forall (component_request env) (network (steps (api := api_v2 env) w0 es)).
Proof.
  intros P0 N0. apply network_of_v2.
  - now apply nothing_parked_known.
  - rewrite N0. constructor.
Qed.

End Wired.

(* ===================================================================== *)
(** ** The earlier component, with its simulated service                  *)
(* ===================================================================== *)

Section Simulated.
Context {api : ApiService}.

(** X13.  [handleSendMessage] of [Conversation.tsx] never touches the
    network.  For content that is not blank it appends the user turn,
    raises [isLoading] and waits for its timer, no request made; once
    the timer fires, whatever the handler is resumed with, the
    transcript holds the user turn and the assistant turn with the
    simulated text, [isLoading] is false, [error] is empty, the audio
    element is untouched and still no request was made. *)
Theorem simulated_exchange
    (w : World) (c : jsstring) (o : FetchOutcome ChatResponse) :
  all_whitespace c = false ->
  let w1 := run (Conversation.handleSendMessage c) w in
  let w2 := step w1 (Settle (length (pending w)) o) in
  network w1 = network w /\
  length (pending w1) = S (length (pending w)) /\
  transcript w1 = (transcript w ++ [(user, c)])%list /\
  isLoading (conversation w1) = true /\
  transcript w2
  = (transcript w ++ [(user, c); (assistant, simulated_text c)])%list /\
  isLoading (conversation w2) = false /\
  error (conversation w2) = None /\
  network w2 = network w /\
  audioPlayerRef w2 = audioPlayerRef w /\
  pending w2 = pending w.
Proof.
  intros Hc. apply not_blank in Hc. cbv zeta.
  unfold Conversation.handleSendMessage. rewrite Hc. cbn.
  rewrite nth_error_snoc, remove_nth_snoc. cbn.
  unfold transcript. cbn. rewrite !map_app, !length_app, <- app_assoc. cbn.
  repeat split; try reflexivity. lia.
Qed.

End Simulated.

(* ===================================================================== *)
(** ** The component, step by step                                        *)
(* ===================================================================== *)

Section StepByStep.
Context {api : ApiService}.


Lemma step_keeps_inactive w e :
  parked_known w ->
  e <> StartConversation ->
  isConversationActive w = false ->
  isConversationActive (step w e) = false.
Proof.
  intros I Ne H.
  destruct e as [| | c | b | clip | staged disabled | i o |]; cbn [step].
  - congruence.
  - reflexivity.
  - destruct (truthy_text (trim c)) eqn:Hc.
    + destruct (text_call_shape w c Hc) as (url & init & parked & _ & R & _).
      rewrite R. exact H.
    + unfold handleSendMessage. rewrite Hc. exact H.
  - destruct (voice_call_shape w b) as (url & init & parked & _ & R & _).
    rewrite R. exact H.
  - exact H.
  - destruct disabled; [exact H |].
    unfold recorder_handleProcessRecording.
    destruct staged as [b |]; [| exact H].
    destruct (voice_call_shape w b) as (url & init & parked & _ & R & _).
    rewrite R. exact H.
  - destruct (nth_error (pending w) i) as [parked |] eqn:N; [| exact H].
    pose proof (proj1 (Forall_forall _ _) I parked (nth_error_In _ _ N) o)
      as [x Hx].
    rewrite Hx.
    match goal with |- context [complete x ?v] =>
      destruct (complete_frame x v) as (_ & _ & _ & _ & A & _) end.
    rewrite A. exact H.
  - exact H.
Qed.

(** X15.  An ended conversation stays ended.  Along every run in which
    the conversation is not started again, from a world that is inactive
    and has no handler parked, [isConversationActive] stays false,
    whatever is sent, recorded or answered in between. *)
Theorem ended_conversation_stays_inactive (w0 : World) (es : list Event) :
  pending w0 = [] ->
  isConversationActive w0 = false ->
  Forall (fun e => e <> StartConversation) es ->
  isConversationActive (steps w0 es) = false.
Proof.
  intros P0 A0 F.
  apply nothing_parked_known in P0.
  revert w0 P0 A0. unfold steps.
  induction F as [| e es Ne F IH]; cbn; intros w I A; [exact A |].
  apply IH.
  - eapply transition_known; [exact I | apply step_transition; exact I].
  - now apply step_keeps_inactive.
Qed.

End StepByStep.

(* ===================================================================== *)
(** ** Concrete runs of the further properties                            *)
(* ===================================================================== *)

Lemma text_exchange_appends_reply_witness :
  let r := mkChatResponse (js "1.27") (Some "http://host/a1") in
  let w2 := session [SendMessage (js "quote GBP/USD"); Settle 0 (ok_json r)] in
  messages (conversation w2)
  = [mkMessage user (js "quote GBP/USD") (Some 0);
     mkMessage assistant (js "1.27") (Some 0)] /\
  audioPlayerRef w2 = Some (mkAudio "http://host/a1" ["http://host/a1"]).
Proof.
  cbv zeta.
  destruct (@text_exchange_appends_reply the_api mounted (js "quote GBP/USD")
              (ok_json (mkChatResponse (js "1.27") (Some "http://host/a1")))
              (mkChatResponse (js "1.27") (Some "http://host/a1"))
              eq_refl eq_refl)
    as (M & _ & _ & _ & _ & _ & _ & P & _).
  split; [exact M |].
  apply (P "http://host/a1" (mkAudio EmptyString []) eq_refl);
    [discriminate | reflexivity].
Defined.

Lemma error_cleared_by_next_call_witness :
  error (conversation
           (session [SendMessage (js "a"); Settle 0 unavailable;
                     SendMessage (js "b");
                     Settle 0 (ok_json (mkChatResponse (js "B") None))]))
  = None.
Proof.
  destruct (@error_cleared_by_next_call the_api mounted (js "a") (js "b") clip
              unavailable (ok_json (mkChatResponse (js "B") None))
              (Error "API request failed: Service Unavailable - upstream timed out")
              (mkChatResponse (js "B") None) eq_refl eq_refl eq_refl eq_refl)
    as (_ & _ & _ & E & _).
  exact E.
Defined.

Lemma loading_means_outstanding_witness :
  pending (session [StartConversation; SendMessage (js "a")]) <> [].
Proof.
  apply (@loading_means_outstanding the_api mounted
           [StartConversation; SendMessage (js "a")]); reflexivity.
Defined.

Lemma first_completion_lowers_loading_witness :
  let w3 := session [SendMessage (js "a"); ProcessRecording clip;
                     Settle 0 unavailable] in
  isLoading (conversation w3) = false /\ length (pending w3) = 1.
Proof.
  destruct (@first_completion_lowers_loading the_api mounted
              (SendMessage (js "a")) (ProcessRecording clip) 0 unavailable
              eq_refl eq_refl (or_introl eq_refl))
    as (_ & _ & L & P).
  cbv zeta. split; [exact L | exact P].
Defined.

Lemma requests_follow_calls_witness :
  network (session [SendMessage (js "a"); Settle 0 unavailable])
  = network (session [SendMessage (js "a")]).
Proof.
  destruct (@requests_follow_calls the_api mounted [SendMessage (js "a")]
              (Settle 0 unavailable) eq_refl)
    as (_ & _ & S & _).
  exact (S 0 unavailable eq_refl).
Defined.

Lemma transcript_stays_chronological_witness :
  chronological
    (session [SendMessage (js "a"); Tick;
              Settle 0 (ok_json (mkChatResponse (js "A") None))]).
Proof.
  apply (@transcript_stays_chronological the_api mounted
           [SendMessage (js "a"); Tick;
            Settle 0 (ok_json (mkChatResponse (js "A") None))]);
    [reflexivity | cbn; lia].
Defined.

Lemma play_calls_grow_and_are_not_empty_witness :
  exists more,
    play_calls
      (session [ProcessRecording clip;
                Settle 0 (ok_json (mkChatResponse (js "noted") (Some "http://host/r1")))])
    = (play_calls mounted ++ more)%list /\
    Forall (fun u => u <> EmptyString) more.
Proof.
  apply (@play_calls_grow_and_are_not_empty the_api mounted
           [ProcessRecording clip;
            Settle 0 (ok_json (mkChatResponse (js "noted") (Some "http://host/r1")))]).
  reflexivity.
Defined.

Lemma revisions_agree_on_success_witness :
  reply (ApiService_v1.sendAudioMessage None clip)
        (ok_json (mkChatResponse (js "noted") None))
  = reply (ApiService_v2.sendAudioMessage None clip)
          (ok_json (mkChatResponse (js "noted") None)).
Proof.
  assert (H : (200 <= 200 <= 299)%Z) by lia.
  destruct (@revisions_agree_on_success None (js "x") clip
              (ok_json (mkChatResponse (js "noted") None)) H)
    as (_ & _ & A & _).
  exact A.
Defined.

Lemma failed_request_message_witness :
  error (conversation
           (steps (api := api_v1 None) mounted
              [SendMessage (js "x"); Settle 0 unavailable]))
  = Some "API request failed: Service Unavailable" /\
  error (conversation
           (steps (api := api_v1 None) mounted
              [ProcessRecording clip; Settle 0 (Rejected NotAnError)]))
  = Some "An error occurred".
Proof.
  assert (H : ~ (200 <= 503 <= 299)%Z) by lia.
  destruct (@failed_request_message None mounted (js "x") clip
              {| status := 503; statusText := "Service Unavailable";
                 body_text := "upstream timed out";
                 body_json := inl (Error "Unexpected token");
                 body_blob := mkBlob [] EmptyString |}
              eq_refl H)
    as (_ & E & _ & _ & R).
  split; [exact E |].
  exact (R (api_v1 None) (ProcessRecording clip) NotAnError
           (or_introl eq_refl) (or_intror eq_refl)).
Defined.

Lemma component_requests_v2_witness :
  Forall (component_request None)
    (network (session [SendMessage (js "a"); ProcessRecording clip])).
Proof.
  apply (@component_requests_v2 None mounted
           [SendMessage (js "a"); ProcessRecording clip]); reflexivity.
Defined.

Lemma simulated_exchange_witness :
  let w1 := run (Conversation.handleSendMessage (js "hi")) mounted in
  network (step (api := the_api) w1 (Settle 0 unavailable)) = [].
Proof.
  destruct (@simulated_exchange the_api mounted (js "hi") unavailable eq_refl)
    as (_ & _ & _ & _ & _ & _ & _ & N & _).
  exact N.
Defined.


Lemma ended_conversation_stays_inactive_witness :
  isConversationActive
    (session [SendMessage (js "a"); EndConversation;
              Settle 0 (ok_json (mkChatResponse (js "late") None))])
  = false.
Proof.
  apply (@ended_conversation_stays_inactive the_api mounted
           [SendMessage (js "a"); EndConversation;
            Settle 0 (ok_json (mkChatResponse (js "late") None))]);
    [reflexivity | reflexivity |].
  repeat constructor; discriminate.
Defined.
